(** * Quadrature-to-single-pulse converter: a shallow embedding

    The repository holds two Arduino (ATmega328P) sketches.

    - The filtered sketch decodes the two quadrature phases in the
      pin-change handler [QuadChange], looks the transition up in
      [QuadLookup], and fires a one-shot pulse on the output pin only when
      the movement just decoded equals the movement decoded at the previous
      edge.  The pulse is ended by the timer-1 overflow handler.
    - The plain sketch ([Module Plain]) fires the one-shot on every edge.

    Both handlers run to completion with interrupts disabled (the AVR
    default inside an ISR) and [loop] is empty, so the program is modelled
    as a sequence of atomic handler runs over a memory of C statics and
    I/O registers.  Each handler is a computation in a small state monad
    that also records, in program order, every store and pin toggle it
    performs, and that fails on an out-of-bounds array read. *)

From Stdlib Require Import String ZArith List Bool Lia.
Import ListNotations.
Local Open Scope Z_scope.

(** ** Memory: C statics and memory-mapped registers *)

Inductive loc : Type :=
  (* static variables of the filtered sketch *)
  | QuadStatePrevious | QuadState | NewMovement | PrevMovement
  (* ATmega328P I/O registers named in the sketches *)
  | PIND | PORTD | TIFR1 | TCNT1 | TIMSK1 | TIMSK0 | TCCR1A | TCCR1B.

Definition loc_eq_dec (a b : loc) : {a = b} + {a <> b}.
Proof. decide equality. Defined.

Definition is_static (l : loc) : bool :=
  match l with
  | QuadStatePrevious | QuadState | NewMovement | PrevMovement => true
  | _ => false
  end.

Inductive ctype : Type := U8 | I8 | U16.

(** [uint8_t] statics and 8-bit registers, [int8_t] movements, and the
    16-bit counter of timer 1. *)
Definition type_of (l : loc) : ctype :=
  match l with
  | NewMovement | PrevMovement => I8
  | TCNT1 => U16
  | _ => U8
  end.

(** Conversion on assignment: wrap-around to the width of the target. *)
Definition cast (t : ctype) (v : Z) : Z :=
  match t with
  | U8 => v mod 256
  | I8 => (v + 128) mod 256 - 128
  | U16 => v mod 65536
  end.

Definition mem : Type := loc -> Z.

Definition upd (m : mem) (l : loc) (v : Z) : mem :=
  fun l' => if loc_eq_dec l l' then v else m l'.

(** What a store does to the location.  [TIFR1] holds interrupt flags:
    a flag is cleared by writing a one to its bit, and writing a zero
    leaves it alone.  Every other location keeps the value stored. *)
Definition poke (l : loc) (v : Z) (m : mem) : mem :=
  match l with
  | TIFR1 => upd m TIFR1 (Z.land (m TIFR1) (Z.lnot v))
  | _ => upd m l v
  end.

(** ** Observable actions, in program order *)

Inductive event : Type :=
  | Write (l : loc) (v : Z)            (* a store, with the value stored *)
  | Toggle (pin : Z)                   (* digitalToggleFast(pin) *)
  | ArduinoCall (f : string) (args : list Z)
  | SerialPrint (s : string).


Definition writes_to (l : loc) (e : event) : bool :=
  match e with
  | Write l' _ => if loc_eq_dec l l' then true else false
  | _ => false
  end.

Definition is_toggle (pin : Z) (e : event) : bool :=
  match e with
  | Toggle p => p =? pin
  | _ => false
  end.

(** ** The monad of handler code *)

Definition M (A : Type) : Type := mem -> option (A * mem * list event).

Definition ret {A} (a : A) : M A := fun m => Some (a, m, []).

Definition bind {A B} (c : M A) (k : A -> M B) : M B :=
  fun m =>
    match c m with
    | None => None
    | Some (a, m1, t1) =>
        match k a m1 with
        | None => None
        | Some (b, m2, t2) => Some (b, m2, t1 ++ t2)
        end
    end.

Notation "x <- c ;; k" := (bind c (fun x => k))
  (at level 61, c at next level, right associativity).
Notation "c ;; k" := (bind c (fun _ => k))
  (at level 61, right associativity).

Definition load (l : loc) : M Z := fun m => Some (m l, m, []).

Definition store (l : loc) (v : Z) : M unit :=
  fun m =>
    let w := cast (type_of l) v in
    Some (tt, poke l w m, [Write l w]).

Definition tell (e : event) : M unit := fun m => Some (tt, m, [e]).

(** Reading [a[i]]: outside the array the behaviour is undefined, which
    the model reports as failure. *)
Definition lookup (a : list Z) (i : Z) : option Z :=
  if i <? 0 then None else nth_error a (Z.to_nat i).

Definition index (a : list Z) (i : Z) : M Z :=
  fun m =>
    match lookup a i with
    | Some v => Some (v, m, [])
    | None => None
    end.

(** ** Constants of the sketches *)

Definition DI_QUAD_A : Z := 2.
Definition DI_QUAD_B : Z := 3.
Definition PULSE_OUT : Z := 4.
Definition LED_BUILTIN : Z := 13.
Definition OUTPUT : Z := 1.
Definition INPUT_PULLUP : Z := 2.

Definition CPU_CLOCK_PER_US : Z := 16.

(** [unsigned int] is 16 bits wide on the AVR. *)
Definition uint (v : Z) : Z := v mod 65536.

Definition PULSE_LEN_CPU_CLOCKS_of (pulse_len_us : Z) : Z :=
  uint (pulse_len_us * CPU_CLOCK_PER_US).

Definition PULSE_LEN_TIMER_VAL_of (pulse_len_us : Z) : Z :=
  uint (65535 - PULSE_LEN_CPU_CLOCKS_of pulse_len_us).

Definition SERIAL_BIT_RATE : Z := 115200.
Definition NUM_POSSIBLE_QUAD_STATE_CHANGES : Z := 16.
Definition MSK_PREV_STATE : Z := 3.
Definition MSK_NEW_STATE : Z := 12.
Definition RIGHT_SHIFT_NEW_TO_PREV : Z := 2.

(** Bit numbers from the AVR headers, and the [_BV] macro. *)
Definition TOV1 : Z := 0.
Definition TOIE1 : Z := 0.
Definition TOIE0 : Z := 0.
Definition CS10 : Z := 0.
Definition _BV (bit : Z) : Z := Z.shiftl 1 bit.

(** ** Calls into the Arduino core and digitalWriteFast *)

(** [digitalToggleFast] on a pin of port D (pins 0 to 7) inverts that
    pin's bit of the port's output latch. *)
Definition digitalToggleFast (pin : Z) : M unit :=
  fun m => Some (tt, upd m PORTD (Z.lxor (m PORTD) (Z.shiftl 1 pin)),
                 [Toggle pin]).

Definition pinMode (pin mode : Z) : M unit :=
  tell (ArduinoCall "pinMode" [pin; mode]).
Definition attachInterrupt (n : Z) : M unit :=
  tell (ArduinoCall "attachInterrupt" [n]).
Definition Serial_begin (baud : Z) : M unit :=
  tell (ArduinoCall "Serial.begin" [baud]).
Definition Serial_println (s : string) : M unit := tell (SerialPrint s).
Definition Serial_print (s : string) : M unit := tell (SerialPrint s).

(** ** The filtered sketch *)

Definition PULSE_LEN_US : Z := 50.
Definition PULSE_LEN_CPU_CLOCKS : Z := PULSE_LEN_CPU_CLOCKS_of PULSE_LEN_US.
Definition PULSE_LEN_TIMER_VAL : Z := PULSE_LEN_TIMER_VAL_of PULSE_LEN_US.

Definition QuadLookup : list Z :=
  [  0; -1;  1;  0;
     1;  0;  0; -1;
    -1;  0;  0;  1;
     0;  1; -1;  0 ].

Definition setup : M unit :=
  Serial_begin SERIAL_BIT_RATE ;;
  pinMode LED_BUILTIN OUTPUT ;;
  pinMode PULSE_OUT OUTPUT ;;
  pinMode DI_QUAD_B INPUT_PULLUP ;;
  pinMode DI_QUAD_A INPUT_PULLUP ;;
  p <- load PIND ;;
  store QuadState (Z.land p MSK_NEW_STATE) ;;
  q <- load QuadState ;;
  store QuadStatePrevious (Z.shiftr q RIGHT_SHIFT_NEW_TO_PREV) ;;
  attachInterrupt 0 ;;
  attachInterrupt 1 ;;
  t0 <- load TIMSK0 ;;
  store TIMSK0 (Z.land t0 (Z.lnot (_BV TOIE0))) ;;
  store TCCR1A 0 ;;
  store TCCR1B 0 ;;
  store TCCR1B (_BV CS10) ;;
  Serial_println "quad to single v1.0".

(** The body of the [if] in [QuadChange], also the whole of the plain
    sketch's handler. *)
Definition fire_one_shot (timer_val : Z) : M unit :=
  digitalToggleFast PULSE_OUT ;;
  f <- load TIFR1 ;;
  store TIFR1 (Z.lor f (_BV TOV1)) ;;
  store TCNT1 timer_val ;;
  k <- load TIMSK1 ;;
  store TIMSK1 (Z.lor k (_BV TOIE1)).

Definition QuadChange : M unit :=
  p <- load PIND ;;
  qp <- load QuadStatePrevious ;;
  store QuadState (Z.lor (Z.land p MSK_NEW_STATE) qp) ;;
  qs <- load QuadState ;;
  mv <- index QuadLookup qs ;;
  store NewMovement mv ;;
  nm <- load NewMovement ;;
  pm <- load PrevMovement ;;
  (if nm =? pm then fire_one_shot PULSE_LEN_TIMER_VAL else ret tt) ;;
  nm' <- load NewMovement ;;
  store PrevMovement nm' ;;
  qs' <- load QuadState ;;
  store QuadStatePrevious (Z.shiftr qs' RIGHT_SHIFT_NEW_TO_PREV).

Definition TIMER1_OVF_vect : M unit :=
  digitalToggleFast PULSE_OUT ;;
  k <- load TIMSK1 ;;
  store TIMSK1 (Z.land k (Z.lnot (_BV TOIE1))).

(** ** The plain sketch: every edge fires the one-shot *)

Module Plain.

Definition PULSE_LEN_US : Z := 75.
Definition PULSE_LEN_CPU_CLOCKS : Z := PULSE_LEN_CPU_CLOCKS_of PULSE_LEN_US.
Definition PULSE_LEN_TIMER_VAL : Z := PULSE_LEN_TIMER_VAL_of PULSE_LEN_US.

Definition setup : M unit :=
  Serial_begin SERIAL_BIT_RATE ;;
  pinMode LED_BUILTIN OUTPUT ;;
  pinMode PULSE_OUT OUTPUT ;;
  pinMode DI_QUAD_B INPUT_PULLUP ;;
  pinMode DI_QUAD_A INPUT_PULLUP ;;
  attachInterrupt 0 ;;
  attachInterrupt 1 ;;
  t0 <- load TIMSK0 ;;
  store TIMSK0 (Z.land t0 (Z.lnot (_BV TOIE0))) ;;
  store TCCR1A 0 ;;
  store TCCR1B 0 ;;
  store TCCR1B (_BV CS10) ;;
  Serial_print "* ".

Definition QuadChange : M unit := fire_one_shot PULSE_LEN_TIMER_VAL.

Definition TIMER1_OVF_vect : M unit :=
  digitalToggleFast PULSE_OUT ;;
  k <- load TIMSK1 ;;
  store TIMSK1 (Z.land k (Z.lnot (_BV TOIE1))).

End Plain.

(** ** Running the filtered sketch *)

(** The C initialisers of the four statics; registers hold whatever the
    hardware and the Arduino core left in them. *)
Definition initial (m : mem) : Prop :=
  m QuadStatePrevious = 0 /\ m QuadState = 0 /\
  m NewMovement = 0 /\ m PrevMovement = 0.

(** What happens between and around handler runs: an edge on either phase
    input (both vectors call [QuadChange]; [pind] is what the port reads
    when the handler samples it), a timer-1 overflow, or the hardware
    changing an I/O register by itself (the counter counting, a flag being
    raised).  The hardware never writes the C statics. *)
Inductive irq : Type :=
  | INT_edge (pind : Z)
  | TIMER1_OVF
  | HW_change (l : loc) (v : Z).

Definition hw_change (l : loc) (v : Z) (m : mem) : mem :=
  if is_static l then m else upd m l v.

(** What one run of [QuadChange] did: the table index it used, the movement
    it decoded and its stores and toggles in program order. *)
Record edge_obs : Type := {
  code : Z;
  movement : Z;
  events : list event
}.

Fixpoint run (irqs : list irq) (m : mem) : option (list edge_obs * mem) :=
  match irqs with
  | [] => Some ([], m)
  | INT_edge pind :: rest =>
      match QuadChange (upd m PIND pind) with
      | None => None
      | Some (_, m1, t) =>
          match run rest m1 with
          | None => None
          | Some (obs, m2) =>
              Some ({| code := m1 QuadState;
                       movement := m1 NewMovement;
                       events := t |} :: obs, m2)
          end
      end
  | TIMER1_OVF :: rest =>
      match TIMER1_OVF_vect m with
      | None => None
      | Some (_, m1, _) => run rest m1
      end
  | HW_change l v :: rest => run rest (hw_change l v m)
  end.

Inductive reachable : mem -> Prop :=
  | reach_setup m0 m t :
      initial m0 -> setup m0 = Some (tt, m, t) -> reachable m
  | reach_edge m pind m' t :
      reachable m -> QuadChange (upd m PIND pind) = Some (tt, m', t) ->
      reachable m'
  | reach_ovf m m' t :
      reachable m -> TIMER1_OVF_vect m = Some (tt, m', t) -> reachable m'
  | reach_hw m l v :
      reachable m -> reachable (hw_change l v m).

Definition pulse_in (t : list event) : bool :=
  existsb (is_toggle PULSE_OUT) t.

Definition pulse (o : edge_obs) : bool := pulse_in (events o).

(** The table as a partial function of the index. *)
Definition table (c : Z) : option Z := lookup QuadLookup c.

(** The two-bit phase pair in a port reading: phase B (pin 3) above
    phase A (pin 2). *)
Definition sampled_pair (pind : Z) : Z :=
  Z.shiftr (Z.land pind MSK_NEW_STATE) RIGHT_SHIFT_NEW_TO_PREV.

(** The invariant of the decoder statics. *)
Definition decoder_ok (m : mem) : Prop :=
  0 <= m QuadStatePrevious <= 3.

(** A memory to start concrete runs from: everything zero. *)
Definition boot : mem := fun _ => 0.

(** The one-shot counts as armed by a handler run that stores a value with
    the overflow-interrupt enable bit set to [TIMSK1]. *)
Definition arms (e : event) : bool :=
  match e with
  | Write TIMSK1 v => Z.testbit v TOIE1
  | _ => false
  end.

Definition armed_in (t : list event) : bool := existsb arms t.

Definition after_setup : mem :=
  match setup boot with
  | Some (_, m, _) => m
  | None => boot
  end.

Definition code_after {A} (r : option (A * mem * list event)) : option Z :=
  match r with
  | Some (_, m, _) => Some (m QuadState)
  | None => None
  end.

Definition events_of {A} (r : option (A * mem * list event)) : list event :=
  match r with
  | Some (_, _, t) => t
  | None => []
  end.

(** ** Closed forms of the handler runs *)

(** The index [QuadChange] computes from the port and the stored pair. *)
Definition qc_code (m : mem) : Z :=
  cast U8 (Z.lor (Z.land (m PIND) MSK_NEW_STATE) (m QuadStatePrevious)).

Definition one_shot_events (m : mem) (v : Z) : list event :=
  [ Toggle PULSE_OUT;
    Write TIFR1 (cast U8 (Z.lor (m TIFR1) (_BV TOV1)));
    Write TCNT1 (cast U16 v);
    Write TIMSK1 (cast U8 (Z.lor (m TIMSK1) (_BV TOIE1))) ].

Definition one_shot_mem (m : mem) (v : Z) : mem :=
  upd (upd (upd (upd m
    PORTD (Z.lxor (m PORTD) (Z.shiftl 1 PULSE_OUT)))
    TIFR1 (Z.land (m TIFR1) (Z.lnot (cast U8 (Z.lor (m TIFR1) (_BV TOV1))))))
    TCNT1 (cast U16 v))
    TIMSK1 (cast U8 (Z.lor (m TIMSK1) (_BV TOIE1))).

Definition qc_events (m : mem) (mv : Z) : list event :=
  [Write QuadState (qc_code m); Write NewMovement mv] ++
  (if mv =? m PrevMovement
   then one_shot_events m PULSE_LEN_TIMER_VAL else []) ++
  [Write PrevMovement mv;
   Write QuadStatePrevious
     (cast U8 (Z.shiftr (qc_code m) RIGHT_SHIFT_NEW_TO_PREV))].

Definition qc_mem (m : mem) (mv : Z) : mem :=
  let m1 := upd (upd m QuadState (qc_code m)) NewMovement mv in
  let m2 := if mv =? m PrevMovement
            then one_shot_mem m1 PULSE_LEN_TIMER_VAL else m1 in
  upd (upd m2 PrevMovement mv)
      QuadStatePrevious
      (cast U8 (Z.shiftr (qc_code m) RIGHT_SHIFT_NEW_TO_PREV)).

Definition ovf_events (m : mem) : list event :=
  [ Toggle PULSE_OUT;
    Write TIMSK1 (cast U8 (Z.land (m TIMSK1) (Z.lnot (_BV TOIE1)))) ].

Definition ovf_mem (m : mem) : mem :=
  upd (upd m PORTD (Z.lxor (m PORTD) (Z.shiftl 1 PULSE_OUT)))
      TIMSK1 (cast U8 (Z.land (m TIMSK1) (Z.lnot (_BV TOIE1)))).

(** ** The layout of the table index *)

(** The index as the specification words it: the previous pair above the
    current one. *)
Definition spec_TransitionCode (previous current : Z) : Z :=
  Z.lor (Z.shiftl previous 2) current.

(** The index as the handler builds it: the pair just sampled stays where
    the port has it, under [MSK_NEW_STATE], above the stored pair, which
    sits under [MSK_PREV_STATE]. *)
Definition code_TransitionCode (previous current : Z) : Z :=
  Z.lor (Z.shiftl current RIGHT_SHIFT_NEW_TO_PREV) previous.

Definition b2z (b : bool) : Z := if b then 1 else 0.

(** The nibble as the comment over the table draws it: A-previous,
    B-previous, A-current, B-current, most significant bit first. *)
Definition drawn_code (a_prev b_prev a_cur b_cur : bool) : Z :=
  8 * b2z a_prev + 4 * b2z b_prev + 2 * b2z a_cur + b2z b_cur.

(** The port as the handler reads it: phase A on bit 2 (pin 2), phase B
    on bit 3 (pin 3). *)
Definition port_of (a b : bool) : Z :=
  Z.shiftl (b2z a) DI_QUAD_A + Z.shiftl (b2z b) DI_QUAD_B.

(** ** Order of the one-shot's side effects *)

Inductive action : Type :=
  | ClearExpiryFlag
  | LoadCountdown (v : Z)
  | TogglePin
  | EnableExpiryIrq
  | DisableExpiryIrq.

Definition action_of (e : event) : option action :=
  match e with
  | Toggle p => if p =? PULSE_OUT then Some TogglePin else None
  | Write TIFR1 v => if Z.testbit v TOV1 then Some ClearExpiryFlag else None
  | Write TCNT1 v => Some (LoadCountdown v)
  | Write TIMSK1 v =>
      if Z.testbit v TOIE1 then Some EnableExpiryIrq
      else Some DisableExpiryIrq
  | _ => None
  end.

Fixpoint actions (t : list event) : list action :=
  match t with
  | [] => []
  | e :: rest =>
      match action_of e with
      | Some a => a :: actions rest
      | None => actions rest
      end
  end.

(** The order the specification gives for arming. *)
Definition spec_arm_order (v : Z) : list action :=
  [ClearExpiryFlag; LoadCountdown v; TogglePin; EnableExpiryIrq].

(** The order of the statements in the handlers. *)
Definition code_arm_order (v : Z) : list action :=
  [TogglePin; ClearExpiryFlag; LoadCountdown v; EnableExpiryIrq].

(** ** Pulse length *)

Definition MAX_COUNT : Z := 65535.

(** With [TCCR1B = _BV(CS10)] the timer counts CPU clocks, so one tick is
    a sixteenth of a microsecond; times are in picoseconds to stay in [Z]. *)
Definition TIMER_TICK_TIME : Z := 1000000 / CPU_CLOCK_PER_US.

Definition PULSE_WIDTH_TIME (pulse_len_us : Z) : Z := pulse_len_us * 1000000.

(** Ticks from loading the counter until it wraps from [MAX_COUNT] to 0,
    which is when the overflow flag is raised. *)
Definition ticks_to_overflow (loaded : Z) : Z := MAX_COUNT + 1 - loaded.

(** ** Quadrature convention *)

(** One step forward along the phase sequence 00, 10, 11, 01, as two-bit
    pairs. *)
Definition phase_next (p : Z) : Z :=
  if p =? 0 then 2 else if p =? 2 then 3 else if p =? 3 then 1 else 0.

Definition hi_pair (c : Z) : Z := Z.shiftr c 2.
Definition lo_pair (c : Z) : Z := Z.land c 3.

(** The same transition one quarter of a cycle later. *)
Definition rotate_code (c : Z) : Z :=
  Z.lor (Z.shiftl (phase_next (hi_pair c)) 2) (phase_next (lo_pair c)).

(** How many of the two phase bits differ between the halves of a code. *)
Definition bits_changed (c : Z) : Z :=
  let d := Z.lxor (hi_pair c) (lo_pair c) in
  Z.land d 1 + Z.shiftr d 1.

Definition all_codes : list Z :=
  [0; 1; 2; 3; 4; 5; 6; 7; 8; 9; 10; 11; 12; 13; 14; 15].

(** ** Sequences of edges *)

(** The movement the decoder compares the [i]-th observed edge with: the
    stored one for the first edge, the preceding edge's after that. *)
Definition reference_movement (m : mem) (obs : list edge_obs) (i : nat) : Z :=
  match i with
  | O => m PrevMovement
  | S j => nth j (map movement obs) 0
  end.

(** Handler runs that are not edges: what may happen between [setup] and
    the first edge. *)
Definition is_edge (q : irq) : bool :=
  match q with
  | INT_edge _ => true
  | _ => false
  end.

(** The decoder's rule along a list of observed edges: each edge indexes
    the table inside its bounds, and fires and arms the one-shot exactly
    when its movement equals the reference, which it then replaces. *)
Fixpoint follows (prev : Z) (obs : list edge_obs) : Prop :=
  match obs with
  | [] => True
  | o :: rest =>
      table (code o) = Some (movement o) /\
      pulse o = (movement o =? prev) /\
      armed_in (events o) = (movement o =? prev) /\
      follows (movement o) rest
  end.

(** The four codes a transition runs through as it is rotated around the
    phase sequence. *)
Definition orbit (c : Z) : list Z :=
  [c; rotate_code c; rotate_code (rotate_code c);
   rotate_code (rotate_code (rotate_code c))].

(** The arming actions of every edge of a run, edge by edge. *)
Definition edge_actions (irqs : list irq) (m : mem) :
  option (list (list action)) :=
  match run irqs m with
  | Some (obs, _) => Some (map (fun o => actions (events o)) obs)
  | None => None
  end.

(** Four edges from a port at rest: one step forward, back, forward and
    forward again. *)
Definition glitch_irqs : list irq :=
  [INT_edge 4; INT_edge 0; INT_edge 4; INT_edge 12].

Definition glitch_obs : list edge_obs :=
  match run glitch_irqs after_setup with
  | Some (obs, _) => obs
  | None => []
  end.

Definition glitch_mem : mem :=
  match run glitch_irqs after_setup with
  | Some (_, m) => m
  | None => boot
  end.

(** ** The decoder as a function of the port readings *)

(** The port readings of the edges of a run, in order. *)
Definition edge_pinds (irqs : list irq) : list Z :=
  flat_map (fun q => match q with INT_edge p => [p] | _ => [] end) irqs.

(** What the source's decoder computes from the stored pair, the stored
    movement and the port readings of the edges: for each edge the table
    index, the movement and whether the one-shot fires. *)
Fixpoint decode (pair mv : Z) (pinds : list Z) : list (Z * Z * bool) :=
  match pinds with
  | [] => []
  | p :: rest =>
      let c := 4 * sampled_pair p + pair in
      let v := nth (Z.to_nat c) QuadLookup 0 in
      (c, v, v =? mv) :: decode (sampled_pair p) v rest
  end.

Definition summary (o : edge_obs) : Z * Z * bool :=
  (code o, movement o, pulse o).

Definition is_ovf (q : irq) : bool :=
  match q with
  | TIMER1_OVF => true
  | _ => false
  end.

(** Whether an interrupt is the hardware changing location [l]. *)
Definition touches (l : loc) (q : irq) : bool :=
  match q with
  | HW_change l' _ => if loc_eq_dec l l' then true else false
  | _ => false
  end.

Definition untouched (l : loc) (irqs : list irq) : bool :=
  forallb (fun q => negb (touches l q)) irqs.

(** The output latch after an odd or an even number of toggles. *)
Definition flipped (odd : bool) (portd : Z) : Z :=
  if odd then Z.lxor portd (Z.shiftl 1 PULSE_OUT) else portd.

(** The pair that follows [p] when phase A leads phase B, as the port has
    the pairs (B above A): 00, 01, 11, 10; and the pair that follows when
    B leads A. *)
Definition forward_pair (p : Z) : Z :=
  if p =? 0 then 1 else if p =? 1 then 3 else if p =? 3 then 2 else 0.

Definition backward_pair (p : Z) : Z :=
  if p =? 0 then 2 else if p =? 2 then 3 else if p =? 3 then 1 else 0.

(** Every reading is one step of [f] from the one before it. *)
Fixpoint steps (f : Z -> Z) (pair : Z) (pinds : list Z) : bool :=
  match pinds with
  | [] => true
  | p :: rest => (sampled_pair p =? f pair) && steps f (sampled_pair p) rest
  end.

(** * Proofs *)

#[local] Arguments Z.shiftr : simpl never.
#[local] Arguments Z.shiftl : simpl never.
#[local] Arguments Z.land : simpl never.
#[local] Arguments Z.lor : simpl never.
#[local] Arguments Z.lxor : simpl never.
#[local] Arguments Z.lnot : simpl never.
#[local] Arguments Z.modulo : simpl never.
#[local] Arguments Z.add : simpl never.
#[local] Arguments Z.sub : simpl never.
#[local] Arguments Z.testbit : simpl never.
#[local] Arguments cast : simpl never.

Ltac unfold_monad :=
  unfold fire_one_shot, bind, load, store, index, ret, tell,
    digitalToggleFast, pinMode, attachInterrupt, Serial_begin,
    Serial_println, Serial_print.

(** ** Arithmetic of the masks *)

Lemma small_cases (x : Z) :
  0 <= x < 16 -> In x all_codes.
Proof.
  intros H. unfold all_codes.
  assert (x = 0 \/ x = 1 \/ x = 2 \/ x = 3 \/ x = 4 \/ x = 5 \/ x = 6 \/
          x = 7 \/ x = 8 \/ x = 9 \/ x = 10 \/ x = 11 \/ x = 12 \/
          x = 13 \/ x = 14 \/ x = 15) as E by lia.
  cbn. intuition.
Qed.

Lemma land_mask_low (p k : Z) :
  0 <= k < 16 -> Z.land p k = Z.land (p mod 16) k.
Proof.
  intros Hk.
  change 16 with (2 ^ 4). rewrite <- Z.land_ones by lia.
  rewrite <- Z.land_assoc. f_equal.
  apply small_cases in Hk. unfold all_codes in Hk. cbn in Hk.
  repeat (destruct Hk as [<- | Hk]; [reflexivity|]). contradiction.
Qed.

Lemma land_new_state (p : Z) :
  In (Z.land p MSK_NEW_STATE) [0; 4; 8; 12].
Proof.
  unfold MSK_NEW_STATE. rewrite land_mask_low by lia.
  assert (0 <= p mod 16 < 16) as H by (apply Z.mod_pos_bound; lia).
  apply small_cases in H. unfold all_codes in H. cbn in H.
  repeat (destruct H as [<- | H]; [cbn; tauto|]). contradiction.
Qed.

Lemma sampled_pair_range (p : Z) : 0 <= sampled_pair p <= 3.
Proof.
  unfold sampled_pair. pose proof (land_new_state p) as H. cbn in H.
  repeat (destruct H as [<- | H]; [vm_compute; split; discriminate|]).
  contradiction.
Qed.

Lemma qc_code_eq (m : mem) :
  decoder_ok m ->
  qc_code m = 4 * sampled_pair (m PIND) + m QuadStatePrevious.
Proof.
  unfold decoder_ok, qc_code, sampled_pair. intros H.
  pose proof (land_new_state (m PIND)) as L. cbn in L.
  assert (m QuadStatePrevious = 0 \/ m QuadStatePrevious = 1 \/
          m QuadStatePrevious = 2 \/ m QuadStatePrevious = 3) as Q by lia.
  repeat (destruct L as [<- | L]; [
    repeat (destruct Q as [-> | Q]; [reflexivity|]); rewrite Q; reflexivity |]).
  contradiction.
Qed.

Lemma qc_code_range (m : mem) : decoder_ok m -> 0 <= qc_code m <= 15.
Proof.
  intros H. rewrite qc_code_eq by assumption.
  pose proof (sampled_pair_range (m PIND)). unfold decoder_ok in H. lia.
Qed.

Lemma qc_code_shift (m : mem) :
  decoder_ok m ->
  cast U8 (Z.shiftr (qc_code m) RIGHT_SHIFT_NEW_TO_PREV) = sampled_pair (m PIND).
Proof.
  intros H. rewrite qc_code_eq by assumption.
  pose proof (sampled_pair_range (m PIND)) as R. unfold decoder_ok in H.
  unfold RIGHT_SHIFT_NEW_TO_PREV. rewrite Z.shiftr_div_pow2 by lia.
  change (2 ^ 2) with 4.
  replace ((4 * sampled_pair (m PIND) + m QuadStatePrevious) / 4)
    with (sampled_pair (m PIND)) by (apply Z.div_unique with (r := m QuadStatePrevious); lia).
  unfold cast. apply Z.mod_small. lia.
Qed.

(** ** The table *)

Lemma table_cases (c mv : Z) :
  table c = Some mv -> 0 <= c < 16 /\ (mv = -1 \/ mv = 0 \/ mv = 1).
Proof.
  unfold table, lookup. destruct (Z.ltb_spec c 0) as [|Hc]; [discriminate|].
  intros H.
  assert (c < 16) as Hlt.
  { destruct (Z.ltb_spec c 16) as [|Hge]; [assumption|].
    assert (nth_error QuadLookup (Z.to_nat c) = None) as N
      by (apply nth_error_None; cbn; lia).
    congruence. }
  split; [lia|].
  assert (0 <= c < 16) as R by lia.
  apply small_cases in R. unfold all_codes in R. cbn in R.
  repeat (destruct R as [<- | R]; [cbn in H; injection H as <-; lia|]).
  contradiction.
Qed.

Lemma table_defined (c : Z) :
  0 <= c < 16 -> exists mv, table c = Some mv.
Proof.
  intros R. apply small_cases in R. unfold all_codes in R. cbn in R.
  repeat (destruct R as [<- | R]; [eexists; reflexivity|]).
  contradiction.
Qed.

Lemma cast_movement (mv : Z) :
  mv = -1 \/ mv = 0 \/ mv = 1 -> cast I8 mv = mv.
Proof. intros [-> | [-> | ->]]; reflexivity. Qed.

(** ** The handlers in closed form *)

Lemma QuadChange_run (m : mem) (mv : Z) :
  table (qc_code m) = Some mv ->
  QuadChange m = Some (tt, qc_mem m mv, qc_events m mv).
Proof.
  intros H. pose proof (table_cases _ _ H) as [_ Hmv].
  pose proof (cast_movement mv Hmv) as Hc.
  unfold QuadChange, qc_mem, qc_events, one_shot_mem, one_shot_events.
  unfold_monad. cbn. fold (qc_code m).
  unfold table in H. rewrite H. cbn. rewrite !Hc.
  destruct (mv =? m PrevMovement); cbn; rewrite ?Hc; reflexivity.
Qed.

Lemma QuadChange_fail (m : mem) :
  table (qc_code m) = None -> QuadChange m = None.
Proof.
  intros H. unfold QuadChange. unfold_monad. cbn. fold (qc_code m).
  unfold table in H. rewrite H. reflexivity.
Qed.

Lemma fire_one_shot_run (v : Z) (m : mem) :
  fire_one_shot v m = Some (tt, one_shot_mem m v, one_shot_events m v).
Proof. reflexivity. Qed.

Lemma TIMER1_OVF_run (m : mem) :
  TIMER1_OVF_vect m = Some (tt, ovf_mem m, ovf_events m).
Proof. reflexivity. Qed.

Lemma Plain_TIMER1_OVF_run (m : mem) :
  Plain.TIMER1_OVF_vect m = Some (tt, ovf_mem m, ovf_events m).
Proof. reflexivity. Qed.

Lemma QuadChange_inv (m m' : mem) (t : list event) :
  QuadChange m = Some (tt, m', t) ->
  exists mv, table (qc_code m) = Some mv /\
             m' = qc_mem m mv /\ t = qc_events m mv.
Proof.
  intros H. destruct (table (qc_code m)) as [mv|] eqn:E.
  - rewrite (QuadChange_run _ _ E) in H. injection H as <- <-. eauto.
  - rewrite (QuadChange_fail _ E) in H. discriminate.
Qed.

(** ** What the handlers leave in the statics *)

Lemma qc_mem_statics (m : mem) (mv : Z) :
  qc_mem m mv QuadState = qc_code m /\
  qc_mem m mv NewMovement = mv /\
  qc_mem m mv PrevMovement = mv /\
  qc_mem m mv QuadStatePrevious =
    cast U8 (Z.shiftr (qc_code m) RIGHT_SHIFT_NEW_TO_PREV).
Proof.
  unfold qc_mem, one_shot_mem.
  destruct (mv =? m PrevMovement); cbn; auto.
Qed.

Lemma ovf_mem_static (m : mem) (l : loc) :
  is_static l = true -> ovf_mem m l = m l.
Proof. destruct l; cbn; intros H; try discriminate; reflexivity. Qed.

Lemma hw_change_static (l : loc) (v : Z) (m : mem) (l' : loc) :
  is_static l' = true -> hw_change l v m l' = m l'.
Proof.
  unfold hw_change, upd. intros H.
  destruct (is_static l) eqn:E; [reflexivity|].
  destruct (loc_eq_dec l l') as [->|]; [congruence|reflexivity].
Qed.

Lemma setup_run (m : mem) :
  exists m' t,
    setup m = Some (tt, m', t) /\
    m' QuadStatePrevious = sampled_pair (m PIND) /\
    m' NewMovement = m NewMovement /\
    m' PrevMovement = m PrevMovement.
Proof.
  do 2 eexists. split; [reflexivity|]. cbn.
  repeat split.
  unfold sampled_pair.
  pose proof (land_new_state (m PIND)) as L. cbn in L.
  repeat (destruct L as [<- | L]; [reflexivity|]). contradiction.
Qed.

Lemma setup_ok (m m' : mem) (t : list event) :
  setup m = Some (tt, m', t) -> decoder_ok m'.
Proof.
  destruct (setup_run m) as (m1 & t1 & E & Q & _). rewrite E.
  intros H. injection H as <- <-. unfold decoder_ok. rewrite Q.
  apply sampled_pair_range.
Qed.

Lemma QuadChange_ok (m m' : mem) (t : list event) :
  decoder_ok m -> QuadChange m = Some (tt, m', t) -> decoder_ok m'.
Proof.
  intros Hm H. apply QuadChange_inv in H as (mv & _ & -> & _).
  unfold decoder_ok.
  destruct (qc_mem_statics m mv) as (_ & _ & _ & ->).
  rewrite qc_code_shift by assumption. apply sampled_pair_range.
Qed.

Lemma upd_PIND_ok (m : mem) (pind : Z) :
  decoder_ok m -> decoder_ok (upd m PIND pind).
Proof. unfold decoder_ok. cbn. auto. Qed.

Lemma hw_change_ok (l : loc) (v : Z) (m : mem) :
  decoder_ok m -> decoder_ok (hw_change l v m).
Proof.
  unfold decoder_ok. rewrite hw_change_static by reflexivity. auto.
Qed.

Lemma ovf_ok (m : mem) : decoder_ok m -> decoder_ok (ovf_mem m).
Proof. unfold decoder_ok. cbn. auto. Qed.

Lemma reachable_ok (m : mem) : reachable m -> decoder_ok m.
Proof.
  induction 1 as [m0 m t _ S | m pind m' t _ IH Q | m m' t _ IH O
                 | m l v _ IH].
  - eapply setup_ok; eassumption.
  - eapply QuadChange_ok; [apply upd_PIND_ok|]; eassumption.
  - rewrite TIMER1_OVF_run in O. injection O as <- _. apply ovf_ok, IH.
  - apply hw_change_ok, IH.
Qed.

(** [QuadChange] returns whenever the stored pair is a pair. *)
Lemma QuadChange_total (m : mem) :
  decoder_ok m ->
  exists mv, table (qc_code m) = Some mv /\
             QuadChange m = Some (tt, qc_mem m mv, qc_events m mv).
Proof.
  intros H. destruct (table_defined (qc_code m)) as [mv E].
  - pose proof (qc_code_range m H). lia.
  - exists mv. split; [assumption|]. apply QuadChange_run, E.
Qed.

(** ** Whether a run fired the one-shot *)

Lemma qc_events_pulse (m : mem) (mv : Z) :
  pulse_in (qc_events m mv) = (mv =? m PrevMovement).
Proof.
  unfold qc_events, one_shot_events.
  destruct (mv =? m PrevMovement); reflexivity.
Qed.

Lemma cast_U8_bit0 (v : Z) : Z.testbit (cast U8 v) 0 = Z.testbit v 0.
Proof.
  unfold cast. change 256 with (2 ^ 8).
  apply Z.mod_pow2_bits_low. lia.
Qed.

Lemma lor_BV_bit0 (v : Z) : Z.testbit (cast U8 (Z.lor v (_BV 0))) 0 = true.
Proof.
  rewrite cast_U8_bit0, Z.lor_spec. change (Z.testbit (_BV 0) 0) with true.
  apply orb_true_r.
Qed.

Lemma land_not_BV_bit0 (v : Z) :
  Z.testbit (cast U8 (Z.land v (Z.lnot (_BV 0)))) 0 = false.
Proof.
  rewrite cast_U8_bit0, Z.land_spec.
  change (Z.testbit (Z.lnot (_BV 0)) 0) with false.
  apply andb_false_r.
Qed.

Lemma qc_events_armed (m : mem) (mv : Z) :
  armed_in (qc_events m mv) = (mv =? m PrevMovement).
Proof.
  unfold qc_events, one_shot_events.
  destruct (mv =? m PrevMovement); [|reflexivity].
  cbn. unfold TOIE1. rewrite lor_BV_bit0. reflexivity.
Qed.

(** ** Sequences of interrupts *)

Lemma run_follows (irqs : list irq) :
  forall m, decoder_ok m ->
  exists obs m',
    run irqs m = Some (obs, m') /\
    decoder_ok m' /\
    length obs = length (filter is_edge irqs) /\
    follows (m PrevMovement) obs.
Proof.
  induction irqs as [|q rest IH]; intros m Hm.
  - exists [], m. cbn. auto.
  - destruct q as [pind | | l v]; cbn [run filter is_edge].
    + destruct (QuadChange_total (upd m PIND pind)) as (mv & T & E);
        [apply upd_PIND_ok, Hm|].
      rewrite E.
      destruct (qc_mem_statics (upd m PIND pind) mv) as (Hc & Hn & Hp & _).
      destruct (IH (qc_mem (upd m PIND pind) mv)) as (obs & m' & R & Hk & L & F).
      { eapply QuadChange_ok; [apply upd_PIND_ok, Hm | exact E]. }
      rewrite R. do 2 eexists. split; [reflexivity|].
      split; [assumption|]. split; [cbn; congruence|].
      cbn [follows code movement]. unfold pulse. cbn [events].
      rewrite Hc, Hn, qc_events_pulse, qc_events_armed.
      change (upd m PIND pind PrevMovement) with (m PrevMovement).
      rewrite Hp in F. repeat split; auto.
    + rewrite TIMER1_OVF_run.
      destruct (IH (ovf_mem m) (ovf_ok m Hm)) as (obs & m' & R & Hk & L & F).
      exists obs, m'. split; [exact R|]. split; [exact Hk|].
      split; [exact L | exact F].
    + destruct (IH (hw_change l v m) (hw_change_ok l v m Hm))
        as (obs & m' & R & Hk & L & F).
      rewrite hw_change_static in F by reflexivity.
      exists obs, m'. split; [exact R|]. split; [exact Hk|].
      split; [exact L | exact F].
Qed.

Lemma follows_nth (obs : list edge_obs) :
  forall prev i o,
    follows prev obs -> nth_error obs i = Some o ->
    table (code o) = Some (movement o) /\
    pulse o = (movement o =?
               match i with O => prev | S j => nth j (map movement obs) 0 end) /\
    armed_in (events o) = pulse o.
Proof.
  induction obs as [|a rest IH]; intros prev i o F N.
  - destruct i; discriminate.
  - destruct F as (T & P & A & F). destruct i as [|i].
    + injection N as <-. rewrite A, P. auto.
    + cbn in N. destruct (IH _ _ _ F N) as (T' & P' & A').
      split; [assumption|]. split; [|assumption].
      rewrite P'. destruct i; reflexivity.
Qed.

Lemma nth_movement (obs : list edge_obs) (j : nat) (o : edge_obs) :
  nth_error obs j = Some o -> nth j (map movement obs) 0 = movement o.
Proof.
  revert j. induction obs as [|a rest IH]; intros [|j] N; try discriminate.
  - injection N as <-. reflexivity.
  - cbn. apply IH, N.
Qed.

Lemma qc_code_layout (m : mem) :
  decoder_ok m ->
  qc_code m = code_TransitionCode (m QuadStatePrevious) (sampled_pair (m PIND)) /\
  hi_pair (qc_code m) = sampled_pair (m PIND) /\
  lo_pair (qc_code m) = m QuadStatePrevious.
Proof.
  unfold decoder_ok, qc_code, sampled_pair, code_TransitionCode,
    hi_pair, lo_pair. intros H.
  pose proof (land_new_state (m PIND)) as L. cbn in L.
  assert (m QuadStatePrevious = 0 \/ m QuadStatePrevious = 1 \/
          m QuadStatePrevious = 2 \/ m QuadStatePrevious = 3) as Q by lia.
  repeat (destruct L as [<- | L]; [
    repeat (destruct Q as [-> | Q]; [repeat split|]);
    rewrite Q; repeat split |]).
  contradiction.
Qed.

(** The comment over the table draws the nibble with the previous pair on
    top and phase A above phase B; the handler puts the new pair on top and
    has phase B above phase A.  The table is the same read either way, so
    every transition gets the movement the comment gives it. *)
Lemma drawn_layout_agrees (a_prev b_prev a_cur b_cur : bool) :
  table (code_TransitionCode (sampled_pair (port_of a_prev b_prev))
                             (sampled_pair (port_of a_cur b_cur))) =
  table (drawn_code a_prev b_prev a_cur b_cur).
Proof. destruct a_prev, b_prev, a_cur, b_cur; reflexivity. Qed.

(** * The claims *)

(** C1.  From any reachable state and along any sequence of interrupts,
    every run of [QuadChange] returns, and the run for the [i]-th edge
    toggles the pulse pin, and arms the one-shot, if and only if the
    movement it looked up equals the movement recorded by the previous run
    (for the first edge, the stored [PrevMovement]); the comparison is
    equality of the signed values, zero included.  For an edge that has a
    predecessor this says that the table gives both codes the same
    movement. *)
Theorem C1_pulse_iff_movement_repeats (m : mem) (irqs : list irq) :
  reachable m ->
  exists obs m',
    run irqs m = Some (obs, m') /\
    length obs = length (filter is_edge irqs) /\
    forall i o, nth_error obs i = Some o ->
      table (code o) = Some (movement o) /\
      (pulse o = true <-> movement o = reference_movement m obs i) /\
      armed_in (events o) = pulse o /\
      (forall j o', i = S j -> nth_error obs j = Some o' ->
         (pulse o = true <-> table (code o) = table (code o'))).
Proof.
  intros Hr.
  destruct (run_follows irqs m (reachable_ok m Hr))
    as (obs & m' & R & _ & L & F).
  exists obs, m'. split; [exact R|]. split; [exact L|].
  intros i o N. destruct (follows_nth obs _ i o F N) as (T & P & A).
  split; [exact T|]. split; [|split; [exact A|]].
  - rewrite P, Z.eqb_eq. destruct i; reflexivity.
  - intros j o' -> N'.
    destruct (follows_nth obs _ j o' F N') as (T' & _ & _).
    rewrite P, Z.eqb_eq, T, T', (nth_movement obs j o' N').
    split; [congruence|]. intros E. injection E. auto.
Qed.

Lemma C1_witness :
  reachable after_setup /\
  exists obs m',
    run [INT_edge 4; TIMER1_OVF; INT_edge 12; INT_edge 12] after_setup
      = Some (obs, m') /\
    length obs = 3%nat /\
    forall i o, nth_error obs i = Some o ->
      table (code o) = Some (movement o) /\
      (pulse o = true <-> movement o = reference_movement after_setup obs i) /\
      armed_in (events o) = pulse o /\
      (forall j o', i = S j -> nth_error obs j = Some o' ->
         (pulse o = true <-> table (code o) = table (code o'))).
Proof.
  assert (reachable after_setup) as R.
  { apply (reach_setup boot after_setup (events_of (setup boot)));
      [repeat split | reflexivity]. }
  split; [exact R|].
  exact (C1_pulse_iff_movement_repeats after_setup
           [INT_edge 4; TIMER1_OVF; INT_edge 12; INT_edge 12] R).
Defined.

(** C2.  In every reachable state and for every port reading,
    [QuadChange] returns: the index it stores in [QuadState] is four times
    the two-bit pair under the port mask plus the two-bit stored pair, so
    it lies in 0..15, and the table gives it a movement of -1, 0 or +1.
    The table has sixteen entries, each of them -1, 0 or +1. *)
Theorem C2_lookup_total (m : mem) (pind : Z) :
  reachable m ->
  (exists m' t,
     QuadChange (upd m PIND pind) = Some (tt, m', t) /\
     m' QuadState = 4 * sampled_pair pind + m QuadStatePrevious /\
     0 <= sampled_pair pind <= 3 /\
     0 <= m QuadStatePrevious <= 3 /\
     0 <= m' QuadState <= 15 /\
     table (m' QuadState) = Some (m' NewMovement) /\
     (m' NewMovement = -1 \/ m' NewMovement = 0 \/ m' NewMovement = 1)) /\
  length QuadLookup = Z.to_nat NUM_POSSIBLE_QUAD_STATE_CHANGES /\
  (forall c, 0 <= c <= 15 ->
     exists mv, table c = Some mv /\ (mv = -1 \/ mv = 0 \/ mv = 1)).
Proof.
  intros Hr. pose proof (reachable_ok m Hr) as Hm.
  pose proof (upd_PIND_ok m pind Hm) as Hu.
  split; [|split; [reflexivity|]].
  - destruct (QuadChange_total _ Hu) as (mv & T & E).
    destruct (qc_mem_statics (upd m PIND pind) mv) as (Hc & Hn & _ & _).
    exists (qc_mem (upd m PIND pind) mv), (qc_events (upd m PIND pind) mv).
    split; [exact E|]. rewrite Hc, Hn.
    split; [apply (qc_code_eq _ Hu)|].
    split; [apply sampled_pair_range|]. split; [exact Hm|].
    split; [apply (qc_code_range _ Hu)|]. split; [exact T|].
    apply (table_cases _ _ T).
  - intros c Hc. destruct (table_defined c) as [mv T]; [lia|].
    exists mv. split; [exact T|]. apply (table_cases _ _ T).
Qed.

Lemma C2_witness :
  reachable after_setup /\
  (exists m' t,
     QuadChange (upd after_setup PIND 255) = Some (tt, m', t) /\
     m' QuadState = 4 * sampled_pair 255 + after_setup QuadStatePrevious /\
     0 <= sampled_pair 255 <= 3 /\
     0 <= after_setup QuadStatePrevious <= 3 /\
     0 <= m' QuadState <= 15 /\
     table (m' QuadState) = Some (m' NewMovement) /\
     (m' NewMovement = -1 \/ m' NewMovement = 0 \/ m' NewMovement = 1)) /\
  length QuadLookup = Z.to_nat NUM_POSSIBLE_QUAD_STATE_CHANGES /\
  (forall c, 0 <= c <= 15 ->
     exists mv, table c = Some mv /\ (mv = -1 \/ mv = 0 \/ mv = 1)).
Proof.
  assert (reachable after_setup) as R.
  { apply (reach_setup boot after_setup (events_of (setup boot)));
      [repeat split | reflexivity]. }
  split; [exact R|].
  exact (C2_lookup_total after_setup 255 R).
Defined.

(** C3, as the specification has it, fails: with the stored pair 00 and
    both phases read high the handler indexes the table at 12, where the
    previous pair above the current one would be 3. *)
Lemma C3_counterexample :
  after_setup QuadStatePrevious = 0 /\
  sampled_pair 12 = 3 /\
  code_after (QuadChange (upd after_setup PIND 12)) = Some 12 /\
  spec_TransitionCode (after_setup QuadStatePrevious) (sampled_pair 12) = 3 /\
  code_after (QuadChange (upd after_setup PIND 12)) <>
    Some (spec_TransitionCode (after_setup QuadStatePrevious)
                              (sampled_pair 12)).
Proof. repeat split. discriminate. Qed.

(** C3, amended.  On every run of [QuadChange] from a reachable state the
    index used for the table is [(current << 2) | previous]: the pair just
    sampled occupies the high two bits of the four-bit code and the stored
    previous pair the low two bits. *)
Theorem C3_code_layout (m : mem) (pind : Z) :
  reachable m ->
  exists m' t,
    QuadChange (upd m PIND pind) = Some (tt, m', t) /\
    m' QuadState =
      code_TransitionCode (m QuadStatePrevious) (sampled_pair pind) /\
    hi_pair (m' QuadState) = sampled_pair pind /\
    lo_pair (m' QuadState) = m QuadStatePrevious /\
    table (m' QuadState) = Some (m' NewMovement).
Proof.
  intros Hr. pose proof (reachable_ok m Hr) as Hm.
  pose proof (upd_PIND_ok m pind Hm) as Hu.
  destruct (QuadChange_total _ Hu) as (mv & T & E).
  destruct (qc_mem_statics (upd m PIND pind) mv) as (Hc & Hn & _ & _).
  exists (qc_mem (upd m PIND pind) mv), (qc_events (upd m PIND pind) mv).
  split; [exact E|]. rewrite Hc, Hn.
  destruct (qc_code_layout _ Hu) as (L1 & L2 & L3).
  repeat split; assumption.
Qed.

Lemma C3_witness :
  reachable after_setup /\
  exists m' t,
    QuadChange (upd after_setup PIND 12) = Some (tt, m', t) /\
    m' QuadState =
      code_TransitionCode (after_setup QuadStatePrevious) (sampled_pair 12) /\
    hi_pair (m' QuadState) = sampled_pair 12 /\
    lo_pair (m' QuadState) = after_setup QuadStatePrevious /\
    table (m' QuadState) = Some (m' NewMovement).
Proof.
  assert (reachable after_setup) as R.
  { apply (reach_setup boot after_setup (events_of (setup boot)));
      [repeat split | reflexivity]. }
  split; [exact R|].
  exact (C3_code_layout after_setup 12 R).
Defined.

(** ** The one-shot's registers *)

Lemma toggle_bit (p : Z) :
  Z.testbit (Z.lxor p (Z.shiftl 1 PULSE_OUT)) PULSE_OUT =
  negb (Z.testbit p PULSE_OUT).
Proof.
  rewrite Z.lxor_spec.
  change (Z.testbit (Z.shiftl 1 PULSE_OUT) PULSE_OUT) with true.
  apply xorb_true_r.
Qed.

Lemma one_shot_actions (m : mem) (v : Z) :
  actions (one_shot_events m v) = code_arm_order (cast U16 v).
Proof.
  unfold one_shot_events, code_arm_order. cbn.
  unfold TOV1, TOIE1. rewrite !lor_BV_bit0. reflexivity.
Qed.

Lemma one_shot_mem_regs (m : mem) (v : Z) :
  Z.testbit (one_shot_mem m v PORTD) PULSE_OUT =
    negb (Z.testbit (m PORTD) PULSE_OUT) /\
  Z.testbit (one_shot_mem m v TIFR1) TOV1 = false /\
  one_shot_mem m v TCNT1 = cast U16 v /\
  Z.testbit (one_shot_mem m v TIMSK1) TOIE1 = true.
Proof.
  unfold one_shot_mem. cbn. unfold TOV1, TOIE1.
  split; [apply toggle_bit|]. split; [|split; [reflexivity|apply lor_BV_bit0]].
  rewrite Z.land_spec, Z.lnot_spec by lia.
  rewrite lor_BV_bit0. apply andb_false_r.
Qed.

Lemma qc_events_actions (m : mem) (mv : Z) :
  actions (qc_events m mv) =
  if mv =? m PrevMovement then code_arm_order PULSE_LEN_TIMER_VAL else [].
Proof.
  unfold qc_events. destruct (mv =? m PrevMovement); [|reflexivity].
  cbn [app actions action_of].
  change (actions (one_shot_events m PULSE_LEN_TIMER_VAL ++
                   [Write PrevMovement mv;
                    Write QuadStatePrevious
                      (cast U8 (Z.shiftr (qc_code m) RIGHT_SHIFT_NEW_TO_PREV))]))
    with (actions (one_shot_events m PULSE_LEN_TIMER_VAL)).
  apply one_shot_actions.
Qed.

Lemma qc_mem_regs (m : mem) (mv : Z) (l : loc) :
  is_static l = false ->
  qc_mem m mv l =
  if mv =? m PrevMovement then one_shot_mem m PULSE_LEN_TIMER_VAL l else m l.
Proof.
  unfold qc_mem, one_shot_mem.
  destruct (mv =? m PrevMovement), l; cbn; intros H;
    try discriminate; reflexivity.
Qed.

(** C4, as the specification has it, fails: on the second of two forward
    steps the handler fires the one-shot, and its first action is the pin
    toggle, which the specification puts third. *)
Lemma C4_counterexample :
  edge_actions [INT_edge 4; INT_edge 12] after_setup =
    Some [[]; code_arm_order PULSE_LEN_TIMER_VAL] /\
  edge_actions [INT_edge 4; INT_edge 12] after_setup <>
    Some [[]; spec_arm_order PULSE_LEN_TIMER_VAL].
Proof. split; [reflexivity | discriminate]. Qed.

(** C4, amended.  When a run of [QuadChange] fires the one-shot, whether
    the timer was idle or already armed, its side effects occur in this
    order: toggle the output pin, clear the pending overflow flag, load the
    counter, enable the overflow interrupt.  Afterwards the pin is
    inverted, the flag is clear, the counter holds [PULSE_LEN_TIMER_VAL]
    and the interrupt is enabled.  A run that does not fire touches none of
    these.  The plain sketch's handler does the same on every edge. *)
Theorem C4_arming_order (m : mem) (pind : Z) :
  reachable m ->
  (exists m' t,
     QuadChange (upd m PIND pind) = Some (tt, m', t) /\
     (pulse_in t = true ->
        actions t = code_arm_order PULSE_LEN_TIMER_VAL /\
        Z.testbit (m' PORTD) PULSE_OUT = negb (Z.testbit (m PORTD) PULSE_OUT) /\
        Z.testbit (m' TIFR1) TOV1 = false /\
        m' TCNT1 = PULSE_LEN_TIMER_VAL /\
        Z.testbit (m' TIMSK1) TOIE1 = true) /\
     (pulse_in t = false ->
        actions t = [] /\
        m' PORTD = m PORTD /\ m' TIFR1 = m TIFR1 /\
        m' TCNT1 = m TCNT1 /\ m' TIMSK1 = m TIMSK1)) /\
  (exists m' t,
     Plain.QuadChange m = Some (tt, m', t) /\
     actions t = code_arm_order Plain.PULSE_LEN_TIMER_VAL /\
     Z.testbit (m' PORTD) PULSE_OUT = negb (Z.testbit (m PORTD) PULSE_OUT) /\
     Z.testbit (m' TIFR1) TOV1 = false /\
     m' TCNT1 = Plain.PULSE_LEN_TIMER_VAL /\
     Z.testbit (m' TIMSK1) TOIE1 = true).
Proof.
  intros Hr. pose proof (reachable_ok m Hr) as Hm.
  pose proof (upd_PIND_ok m pind Hm) as Hu. split.
  - destruct (QuadChange_total _ Hu) as (mv & T & E).
    exists (qc_mem (upd m PIND pind) mv), (qc_events (upd m PIND pind) mv).
    split; [exact E|].
    rewrite qc_events_pulse, qc_events_actions,
      !(qc_mem_regs (upd m PIND pind) mv) by reflexivity.
    destruct (mv =? upd m PIND pind PrevMovement); split; intros H;
      try discriminate.
    + split; [reflexivity|].
      apply (one_shot_mem_regs (upd m PIND pind) PULSE_LEN_TIMER_VAL).
    + repeat split.
  - exists (one_shot_mem m Plain.PULSE_LEN_TIMER_VAL),
      (one_shot_events m Plain.PULSE_LEN_TIMER_VAL).
    split; [reflexivity|]. split; [apply one_shot_actions|].
    apply (one_shot_mem_regs m Plain.PULSE_LEN_TIMER_VAL).
Qed.

Lemma C4_witness :
  reachable after_setup /\
  (exists m' t,
     QuadChange (upd after_setup PIND 0) = Some (tt, m', t) /\
     (pulse_in t = true ->
        actions t = code_arm_order PULSE_LEN_TIMER_VAL /\
        Z.testbit (m' PORTD) PULSE_OUT =
          negb (Z.testbit (after_setup PORTD) PULSE_OUT) /\
        Z.testbit (m' TIFR1) TOV1 = false /\
        m' TCNT1 = PULSE_LEN_TIMER_VAL /\
        Z.testbit (m' TIMSK1) TOIE1 = true) /\
     (pulse_in t = false ->
        actions t = [] /\
        m' PORTD = after_setup PORTD /\ m' TIFR1 = after_setup TIFR1 /\
        m' TCNT1 = after_setup TCNT1 /\ m' TIMSK1 = after_setup TIMSK1)) /\
  (exists m' t,
     Plain.QuadChange after_setup = Some (tt, m', t) /\
     actions t = code_arm_order Plain.PULSE_LEN_TIMER_VAL /\
     Z.testbit (m' PORTD) PULSE_OUT =
       negb (Z.testbit (after_setup PORTD) PULSE_OUT) /\
     Z.testbit (m' TIFR1) TOV1 = false /\
     m' TCNT1 = Plain.PULSE_LEN_TIMER_VAL /\
     Z.testbit (m' TIMSK1) TOIE1 = true).
Proof.
  assert (reachable after_setup) as R.
  { apply (reach_setup boot after_setup (events_of (setup boot)));
      [repeat split | reflexivity]. }
  split; [exact R|].
  exact (C4_arming_order after_setup 0 R).
Defined.

(** C5.  The value the handlers load into the counter is [0xFFFF] less the
    pulse length in CPU clocks, so the counter wraps one tick after the
    pulse length has gone by: the time to overflow is the pulse width plus
    one tick, in both sketches, which is wider than the pulse width and not
    equal to it. *)
Theorem C5_one_tick_longer :
  (forall m, exists m' t,
     fire_one_shot PULSE_LEN_TIMER_VAL m = Some (tt, m', t) /\
     m' TCNT1 = 64735) /\
  PULSE_LEN_TIMER_VAL = MAX_COUNT - PULSE_LEN_US * CPU_CLOCK_PER_US /\
  ticks_to_overflow PULSE_LEN_TIMER_VAL = PULSE_LEN_US * CPU_CLOCK_PER_US + 1 /\
  ticks_to_overflow PULSE_LEN_TIMER_VAL * TIMER_TICK_TIME =
    PULSE_WIDTH_TIME PULSE_LEN_US + TIMER_TICK_TIME /\
  ticks_to_overflow PULSE_LEN_TIMER_VAL * TIMER_TICK_TIME <>
    PULSE_WIDTH_TIME PULSE_LEN_US /\
  ticks_to_overflow PULSE_LEN_TIMER_VAL * TIMER_TICK_TIME >=
    PULSE_WIDTH_TIME PULSE_LEN_US /\
  ticks_to_overflow Plain.PULSE_LEN_TIMER_VAL * TIMER_TICK_TIME =
    PULSE_WIDTH_TIME Plain.PULSE_LEN_US + TIMER_TICK_TIME.
Proof.
  split.
  - intros m. do 2 eexists. split; reflexivity.
  - repeat split; discriminate.
Qed.

(** C6.  Code 2 maps to +1 and code 1 to -1; the table is unchanged when
    both halves of a code are moved one step along the phase sequence; a
    code whose halves differ in exactly one bit is one of the four
    rotations of code 2 and maps to +1, or one of the four rotations of
    code 1 and maps to -1; a code whose halves are equal or differ in both
    bits maps to 0.  Eight codes are of the first kind. *)
Theorem C6_quadrature_convention (c : Z) :
  0 <= c <= 15 ->
  table 2 = Some 1 /\
  table 1 = Some (-1) /\
  0 <= rotate_code c <= 15 /\
  table (rotate_code c) = table c /\
  (bits_changed c = 1 ->
     (In c (orbit 2) /\ table c = Some 1) \/
     (In c (orbit 1) /\ table c = Some (-1))) /\
  (bits_changed c <> 1 -> table c = Some 0) /\
  length (filter (fun k => bits_changed k =? 1) all_codes) = 8%nat.
Proof.
  intros H. assert (0 <= c < 16) as R by lia.
  apply small_cases in R. unfold all_codes in R. cbn in R.
  repeat (destruct R as [<- | R]; [
    vm_compute;
    repeat split; try discriminate; try reflexivity;
    intros E; try discriminate; try (exfalso; apply E; reflexivity);
    tauto |]).
  contradiction.
Qed.

Lemma C6_witness :
  0 <= 11 <= 15 /\
  table 2 = Some 1 /\
  table 1 = Some (-1) /\
  0 <= rotate_code 11 <= 15 /\
  table (rotate_code 11) = table 11 /\
  (bits_changed 11 = 1 ->
     (In 11 (orbit 2) /\ table 11 = Some 1) \/
     (In 11 (orbit 1) /\ table 11 = Some (-1))) /\
  (bits_changed 11 <> 1 -> table 11 = Some 0) /\
  length (filter (fun k => bits_changed k =? 1) all_codes) = 8%nat.
Proof.
  split; [lia|]. apply (C6_quadrature_convention 11). lia.
Defined.

(** ** Stores to the statics within one run *)

Lemma qc_events_split (m : mem) (mv : Z) :
  exists t0,
    qc_events m mv =
      t0 ++ [Write PrevMovement mv;
             Write QuadStatePrevious
               (cast U8 (Z.shiftr (qc_code m) RIGHT_SHIFT_NEW_TO_PREV))] /\
    existsb (writes_to PrevMovement) t0 = false /\
    existsb (writes_to QuadStatePrevious) t0 = false /\
    pulse_in t0 = pulse_in (qc_events m mv) /\
    armed_in t0 = armed_in (qc_events m mv).
Proof.
  exists ([Write QuadState (qc_code m); Write NewMovement mv] ++
          (if mv =? m PrevMovement
           then one_shot_events m PULSE_LEN_TIMER_VAL else [])).
  unfold qc_events. rewrite <- !app_assoc. split; [reflexivity|].
  unfold pulse_in, armed_in. rewrite !existsb_app.
  destruct (mv =? m PrevMovement); cbn;
    rewrite ?orb_false_r; repeat split; reflexivity.
Qed.

Lemma qc_events_writes (m : mem) (mv : Z) :
  filter (writes_to PrevMovement) (qc_events m mv) =
    [Write PrevMovement mv] /\
  filter (writes_to QuadStatePrevious) (qc_events m mv) =
    [Write QuadStatePrevious
       (cast U8 (Z.shiftr (qc_code m) RIGHT_SHIFT_NEW_TO_PREV))].
Proof.
  unfold qc_events. destruct (mv =? m PrevMovement); split; reflexivity.
Qed.

(** C7.  Every run of [QuadChange] from a reachable state, whether it
    fires the one-shot or not, ends with the store of the new movement to
    [PrevMovement] followed by the store of the pair just sampled to
    [QuadStatePrevious]; these are the run's only stores to the two
    variables, and the toggle and the arming, when there are any, come
    before them. *)
Theorem C7_state_update (m : mem) (pind : Z) :
  reachable m ->
  exists m' t t0,
    QuadChange (upd m PIND pind) = Some (tt, m', t) /\
    t = t0 ++ [Write PrevMovement (m' NewMovement);
               Write QuadStatePrevious (sampled_pair pind)] /\
    pulse_in t0 = pulse_in t /\
    armed_in t0 = armed_in t /\
    filter (writes_to PrevMovement) t =
      [Write PrevMovement (m' NewMovement)] /\
    filter (writes_to QuadStatePrevious) t =
      [Write QuadStatePrevious (sampled_pair pind)] /\
    table (m' QuadState) = Some (m' NewMovement) /\
    m' PrevMovement = m' NewMovement /\
    m' QuadStatePrevious = sampled_pair pind.
Proof.
  intros Hr. pose proof (reachable_ok m Hr) as Hm.
  pose proof (upd_PIND_ok m pind Hm) as Hu.
  destruct (QuadChange_total _ Hu) as (mv & T & E).
  destruct (qc_mem_statics (upd m PIND pind) mv) as (Hc & Hn & Hp & Hq).
  destruct (qc_events_split (upd m PIND pind) mv) as (t0 & S & _ & _ & P & A).
  destruct (qc_events_writes (upd m PIND pind) mv) as (W1 & W2).
  pose proof (qc_code_shift _ Hu) as Sh.
  change (upd m PIND pind PIND) with pind in Sh.
  rewrite Sh in S, W2, Hq.
  exists (qc_mem (upd m PIND pind) mv), (qc_events (upd m PIND pind) mv), t0.
  rewrite Hc, Hn, Hp, Hq. repeat split; assumption.
Qed.

Lemma C7_witness :
  reachable after_setup /\
  exists m' t t0,
    QuadChange (upd after_setup PIND 8) = Some (tt, m', t) /\
    t = t0 ++ [Write PrevMovement (m' NewMovement);
               Write QuadStatePrevious (sampled_pair 8)] /\
    pulse_in t0 = pulse_in t /\
    armed_in t0 = armed_in t /\
    filter (writes_to PrevMovement) t =
      [Write PrevMovement (m' NewMovement)] /\
    filter (writes_to QuadStatePrevious) t =
      [Write QuadStatePrevious (sampled_pair 8)] /\
    table (m' QuadState) = Some (m' NewMovement) /\
    m' PrevMovement = m' NewMovement /\
    m' QuadStatePrevious = sampled_pair 8.
Proof.
  assert (reachable after_setup) as R.
  { apply (reach_setup boot after_setup (events_of (setup boot)));
      [repeat split | reflexivity]. }
  split; [exact R|].
  exact (C7_state_update after_setup 8 R).
Defined.

(** C8.  The timer-overflow handler, in both sketches and from every
    memory whatever, returns after exactly two actions: it toggles the
    output pin and then disables the overflow interrupt.  Afterwards the
    pin is inverted and the interrupt is disabled, and the decoder's
    statics are as they were. *)
Theorem C8_expiry_unconditional (m : mem) :
  (exists m' t,
     TIMER1_OVF_vect m = Some (tt, m', t) /\
     actions t = [TogglePin; DisableExpiryIrq] /\
     length t = 2%nat /\
     Z.testbit (m' PORTD) PULSE_OUT = negb (Z.testbit (m PORTD) PULSE_OUT) /\
     Z.testbit (m' TIMSK1) TOIE1 = false /\
     m' QuadStatePrevious = m QuadStatePrevious /\
     m' QuadState = m QuadState /\
     m' NewMovement = m NewMovement /\
     m' PrevMovement = m PrevMovement) /\
  (exists m' t,
     Plain.TIMER1_OVF_vect m = Some (tt, m', t) /\
     actions t = [TogglePin; DisableExpiryIrq] /\
     length t = 2%nat /\
     Z.testbit (m' PORTD) PULSE_OUT = negb (Z.testbit (m PORTD) PULSE_OUT) /\
     Z.testbit (m' TIMSK1) TOIE1 = false).
Proof.
  assert (actions (ovf_events m) = [TogglePin; DisableExpiryIrq]) as A.
  { unfold ovf_events. cbn. unfold TOIE1.
    rewrite land_not_BV_bit0. reflexivity. }
  assert (Z.testbit (ovf_mem m PORTD) PULSE_OUT =
          negb (Z.testbit (m PORTD) PULSE_OUT)) as P
    by (unfold ovf_mem; cbn; apply toggle_bit).
  assert (Z.testbit (ovf_mem m TIMSK1) TOIE1 = false) as K
    by (unfold ovf_mem; cbn; apply land_not_BV_bit0).
  split.
  - exists (ovf_mem m), (ovf_events m).
    split; [apply TIMER1_OVF_run|]. repeat split; assumption.
  - exists (ovf_mem m), (ovf_events m).
    split; [apply Plain_TIMER1_OVF_run|]. repeat split; assumption.
Qed.

(** ** The first edges after [setup] *)

Lemma setup_keeps_reference (m0 m : mem) (t : list event) :
  initial m0 -> setup m0 = Some (tt, m, t) -> m PrevMovement = 0.
Proof.
  intros (_ & _ & _ & I) S.
  destruct (setup_run m0) as (m1 & t1 & E & _ & _ & P).
  rewrite E in S. injection S as <- _. congruence.
Qed.

Lemma follows_pulses (obs : list edge_obs) :
  forall prev, follows prev obs ->
  map pulse obs =
  map (fun p => snd p =? fst p)
      (combine (prev :: map movement obs) (map movement obs)).
Proof.
  induction obs as [|o rest IH]; intros prev F; [reflexivity|].
  destruct F as (_ & P & _ & F). cbn [map combine fst snd].
  rewrite P. f_equal. apply IH, F.
Qed.

Lemma quiet_edges (quiet : list irq) (pind : Z) :
  forallb (fun q => negb (is_edge q)) quiet = true ->
  length (filter is_edge (quiet ++ [INT_edge pind])) = 1%nat.
Proof.
  induction quiet as [|q rest IH]; intros H; [reflexivity|].
  cbn in H. apply andb_prop in H as [Hq Hrest].
  cbn. destruct (is_edge q); [discriminate|]. apply IH, Hrest.
Qed.

(** C9.  Starting from the state [setup] leaves, if the edges of a run
    decode to the movements +1, -1, +1, +1, then the first three edges do
    not fire the one-shot and the fourth does: one pulse in all, at the
    fourth transition. *)
Theorem C9_glitch_rejection (m0 m m' : mem) (t0 : list event)
    (irqs : list irq) (obs : list edge_obs) :
  initial m0 ->
  setup m0 = Some (tt, m, t0) ->
  run irqs m = Some (obs, m') ->
  map movement obs = [1; -1; 1; 1] ->
  map pulse obs = [false; false; false; true] /\
  length (filter pulse obs) = 1%nat.
Proof.
  intros I S R Mv.
  assert (map pulse obs = [false; false; false; true]) as P.
  { destruct (run_follows irqs m (setup_ok _ _ _ S))
      as (obs1 & m1 & R1 & _ & _ & F).
    rewrite R in R1. injection R1 as <- <-.
    rewrite (setup_keeps_reference _ _ _ I S) in F.
    rewrite (follows_pulses obs 0 F), Mv. reflexivity. }
  split; [exact P|].
  destruct obs as [|a [|b [|c [|d [|e rest]]]]]; try discriminate.
  cbn in P. injection P as Pa Pb Pc Pd.
  cbn. rewrite Pa, Pb, Pc, Pd. reflexivity.
Qed.

Lemma C9_witness :
  initial boot /\
  setup boot = Some (tt, after_setup, events_of (setup boot)) /\
  run glitch_irqs after_setup = Some (glitch_obs, glitch_mem) /\
  map movement glitch_obs = [1; -1; 1; 1] /\
  map pulse glitch_obs = [false; false; false; true] /\
  length (filter pulse glitch_obs) = 1%nat.
Proof.
  assert (initial boot) as I by (repeat split).
  assert (setup boot = Some (tt, after_setup, events_of (setup boot))) as S
    by reflexivity.
  assert (run glitch_irqs after_setup = Some (glitch_obs, glitch_mem)) as R
    by reflexivity.
  assert (map movement glitch_obs = [1; -1; 1; 1]) as Mv by reflexivity.
  split; [exact I|]. split; [exact S|]. split; [exact R|].
  split; [exact Mv|].
  exact (C9_glitch_rejection boot after_setup glitch_mem
           (events_of (setup boot)) glitch_irqs glitch_obs I S R Mv).
Defined.

(** C10.  [setup] does not write [PrevMovement], which the C initialiser
    left at 0.  So the first edge after [setup], whatever the timer and the
    registers did in between, fires the one-shot if and only if the table
    gives its code the movement 0; a first edge that decodes to +1 or -1
    does not fire. *)
Theorem C10_first_edge (m0 m : mem) (t0 : list event)
    (quiet : list irq) (pind : Z) :
  initial m0 ->
  setup m0 = Some (tt, m, t0) ->
  forallb (fun q => negb (is_edge q)) quiet = true ->
  m PrevMovement = 0 /\
  filter (writes_to PrevMovement) t0 = [] /\
  exists o m',
    run (quiet ++ [INT_edge pind]) m = Some ([o], m') /\
    table (code o) = Some (movement o) /\
    (pulse o = true <-> movement o = 0) /\
    (movement o = 1 \/ movement o = -1 -> pulse o = false).
Proof.
  intros I S Q.
  pose proof (setup_keeps_reference _ _ _ I S) as P0.
  split; [exact P0|]. split.
  { destruct (setup_run m0) as (m1 & t1 & E & _).
    rewrite E in S. injection S as _ <-.
    cbv in E. injection E as _ <-. reflexivity. }
  destruct (run_follows (quiet ++ [INT_edge pind]) m (setup_ok _ _ _ S))
    as (obs & m' & R & _ & L & F).
  rewrite quiet_edges in L by exact Q.
  destruct obs as [|o [|o' rest]]; try discriminate.
  exists o, m'. split; [exact R|].
  destruct F as (T & P & _ & _). rewrite P0 in P.
  split; [exact T|]. rewrite P. split; [apply Z.eqb_eq|].
  intros [-> | ->]; reflexivity.
Qed.

Lemma C10_witness :
  initial boot /\
  setup boot = Some (tt, after_setup, events_of (setup boot)) /\
  forallb (fun q => negb (is_edge q)) [HW_change TCNT1 17; TIMER1_OVF] = true /\
  after_setup PrevMovement = 0 /\
  filter (writes_to PrevMovement) (events_of (setup boot)) = [] /\
  exists o m',
    run ([HW_change TCNT1 17; TIMER1_OVF] ++ [INT_edge 4]) after_setup
      = Some ([o], m') /\
    table (code o) = Some (movement o) /\
    (pulse o = true <-> movement o = 0) /\
    (movement o = 1 \/ movement o = -1 -> pulse o = false).
Proof.
  assert (initial boot) as I by (repeat split).
  assert (setup boot = Some (tt, after_setup, events_of (setup boot))) as S
    by reflexivity.
  assert (forallb (fun q => negb (is_edge q))
            [HW_change TCNT1 17; TIMER1_OVF] = true) as Q by reflexivity.
  split; [exact I|]. split; [exact S|]. split; [exact Q|].
  exact (C10_first_edge boot after_setup (events_of (setup boot))
           [HW_change TCNT1 17; TIMER1_OVF] 4 I S Q).
Defined.

(** ** Worked runs *)

(** Two edges in a row that decode to no movement: the port reads 00
    twice after a [setup] that also read 00.  The decoder compares 0 with
    0 and fires the one-shot on both. *)
Example zero_movements_fire :
  option_map (fun r => map (fun o => (code o, movement o, pulse o)) (fst r))
             (run [INT_edge 0; INT_edge 0] after_setup) =
  Some [(0, 0, true); (0, 0, true)].
Proof. reflexivity. Qed.

(** A full turn forward, one edge at a time: every edge but the first
    fires the one-shot. *)
Example forward_turn :
  option_map (fun r => map (fun o => (code o, movement o, pulse o)) (fst r))
             (run [INT_edge 4; INT_edge 12; INT_edge 8; INT_edge 0]
                  after_setup) =
  Some [(4, 1, false); (13, 1, true); (11, 1, true); (2, 1, true)].
Proof. reflexivity. Qed.

(** * Further properties of the sketches *)

(** ** The decoder depends on the port through two bits only *)

Lemma land_new_state_eq (p : Z) :
  Z.land p MSK_NEW_STATE = 4 * sampled_pair p.
Proof.
  unfold sampled_pair. pose proof (land_new_state p) as L. cbn in L.
  repeat (destruct L as [<- | L]; [reflexivity|]). contradiction.
Qed.

Lemma sampled_pair_bits (p q : Z) :
  Z.testbit p DI_QUAD_A = Z.testbit q DI_QUAD_A ->
  Z.testbit p DI_QUAD_B = Z.testbit q DI_QUAD_B ->
  sampled_pair p = sampled_pair q.
Proof.
  intros HA HB. unfold sampled_pair. f_equal.
  apply Z.bits_inj'. intros n Hn. rewrite !Z.land_spec.
  destruct (Z.eq_dec n 2) as [-> | N2]; [f_equal; exact HA|].
  destruct (Z.eq_dec n 3) as [-> | N3]; [f_equal; exact HB|].
  assert (Z.testbit MSK_NEW_STATE n = false) as F.
  { unfold MSK_NEW_STATE.
    assert (n = 0 \/ n = 1 \/ 4 <= n) as [-> | [-> | H4]] by lia;
      try reflexivity.
    apply Z.bits_above_log2; [lia|]. change (Z.log2 12) with 3. lia. }
  rewrite F, !andb_false_r. reflexivity.
Qed.

Lemma qc_same_pair (m : mem) (p q : Z) :
  sampled_pair p = sampled_pair q ->
  qc_code (upd m PIND p) = qc_code (upd m PIND q).
Proof.
  intros E. unfold qc_code. cbn.
  rewrite !land_new_state_eq, E. reflexivity.
Qed.

Lemma table_nth (c mv : Z) :
  table c = Some mv -> nth (Z.to_nat c) QuadLookup 0 = mv.
Proof.
  unfold table, lookup. destruct (c <? 0); [discriminate|].
  intros H. apply nth_error_nth, H.
Qed.

(** ** The run of the sketch against the decoder function *)

Lemma run_decode (irqs : list irq) :
  forall m, decoder_ok m ->
  exists obs m',
    run irqs m = Some (obs, m') /\
    map summary obs =
      decode (m QuadStatePrevious) (m PrevMovement) (edge_pinds irqs).
Proof.
  induction irqs as [|q rest IH]; intros m Hm.
  - exists [], m. split; reflexivity.
  - destruct q as [pind | | l v]; cbn [run edge_pinds flat_map app].
    + pose proof (upd_PIND_ok m pind Hm) as Hu.
      destruct (QuadChange_total _ Hu) as (mv & T & E). rewrite E.
      destruct (qc_mem_statics (upd m PIND pind) mv) as (Hc & Hn & Hp & Hq).
      rewrite (qc_code_shift _ Hu) in Hq.
      change (upd m PIND pind PIND) with pind in Hq.
      destruct (IH (qc_mem (upd m PIND pind) mv)) as (obs & m' & R & D).
      { eapply QuadChange_ok; [exact Hu | exact E]. }
      rewrite R. do 2 eexists. split; [reflexivity|].
      cbn [map decode]. unfold summary at 1, pulse. cbn [code movement events].
      rewrite D, Hc, Hn, Hp, Hq, qc_events_pulse, (qc_code_eq _ Hu).
      change (upd m PIND pind PIND) with pind.
      change (upd m PIND pind QuadStatePrevious) with (m QuadStatePrevious).
      change (upd m PIND pind PrevMovement) with (m PrevMovement).
      rewrite (qc_code_eq _ Hu) in T.
      change (upd m PIND pind PIND) with pind in T.
      change (upd m PIND pind QuadStatePrevious)
        with (m QuadStatePrevious) in T.
      rewrite (table_nth _ _ T). reflexivity.
    + rewrite TIMER1_OVF_run.
      destruct (IH (ovf_mem m) (ovf_ok m Hm)) as (obs & m' & R & D).
      exists obs, m'. split; [exact R | exact D].
    + destruct (IH (hw_change l v m) (hw_change_ok l v m Hm))
        as (obs & m' & R & D).
      rewrite !hw_change_static in D by reflexivity.
      exists obs, m'. split; [exact R | exact D].
Qed.

Lemma edge_pinds_edges (pinds : list Z) :
  edge_pinds (map INT_edge pinds) = pinds.
Proof.
  induction pinds as [|p rest IH]; [reflexivity|].
  cbn. f_equal. exact IH.
Qed.

(** From a reachable state every run returns, and what its edges index,
    decode and fire is the decoder function of the stored pair, the stored
    movement and the port readings of the edges alone: timer overflows and
    register changes in between make no difference, and neither does any
    bit of the port other than the two phase inputs. *)
Theorem decoder_sees_only_the_edges (m : mem) (irqs : list irq) :
  reachable m ->
  exists obs m' obs1 m1,
    run irqs m = Some (obs, m') /\
    run (map INT_edge (edge_pinds irqs)) m = Some (obs1, m1) /\
    map summary obs = map summary obs1 /\
    map summary obs =
      decode (m QuadStatePrevious) (m PrevMovement) (edge_pinds irqs).
Proof.
  intros Hr. pose proof (reachable_ok m Hr) as Hm.
  destruct (run_decode irqs m Hm) as (obs & m' & R & D).
  destruct (run_decode (map INT_edge (edge_pinds irqs)) m Hm)
    as (obs1 & m1 & R1 & D1).
  rewrite edge_pinds_edges in D1.
  exists obs, m', obs1, m1. repeat split; congruence.
Qed.

Lemma decoder_sees_only_the_edges_witness :
  reachable after_setup /\
  exists obs m' obs1 m1,
    run [INT_edge 4; TIMER1_OVF; HW_change TCNT1 9; INT_edge 12] after_setup
      = Some (obs, m') /\
    run (map INT_edge
           (edge_pinds [INT_edge 4; TIMER1_OVF; HW_change TCNT1 9;
                        INT_edge 12])) after_setup = Some (obs1, m1) /\
    map summary obs = map summary obs1 /\
    map summary obs =
      decode (after_setup QuadStatePrevious) (after_setup PrevMovement)
        (edge_pinds [INT_edge 4; TIMER1_OVF; HW_change TCNT1 9;
                     INT_edge 12]).
Proof.
  assert (reachable after_setup) as R.
  { apply (reach_setup boot after_setup (events_of (setup boot)));
      [repeat split | reflexivity]. }
  split; [exact R|].
  exact (decoder_sees_only_the_edges after_setup
           [INT_edge 4; TIMER1_OVF; HW_change TCNT1 9; INT_edge 12] R).
Defined.

(** Two port readings that agree on the two phase pins (bits 2 and 3)
    make [QuadChange] do the same: the same stores and toggles, and the
    same memory but for the port itself.  So the other pins of port D, the
    pulse output on bit 4 among them, do not reach the decoder. *)
Theorem other_pins_ignored (m : mem) (p q : Z) :
  reachable m ->
  Z.testbit p DI_QUAD_A = Z.testbit q DI_QUAD_A ->
  Z.testbit p DI_QUAD_B = Z.testbit q DI_QUAD_B ->
  exists mp mq t,
    QuadChange (upd m PIND p) = Some (tt, mp, t) /\
    QuadChange (upd m PIND q) = Some (tt, mq, t) /\
    forall l, l = PIND \/ mp l = mq l.
Proof.
  intros Hr HA HB. pose proof (reachable_ok m Hr) as Hm.
  pose proof (sampled_pair_bits p q HA HB) as E.
  destruct (QuadChange_total _ (upd_PIND_ok m p Hm)) as (mv & T & Ep).
  assert (qc_code (upd m PIND p) = qc_code (upd m PIND q)) as C
    by (apply (qc_same_pair m p q E)).
  rewrite C in T. pose proof (QuadChange_run _ _ T) as Eq.
  exists (qc_mem (upd m PIND p) mv), (qc_mem (upd m PIND q) mv),
    (qc_events (upd m PIND p) mv).
  split; [exact Ep|]. split.
  - rewrite Eq. unfold qc_events, one_shot_events. rewrite C. reflexivity.
  - intros l. unfold qc_mem, one_shot_mem. rewrite C. cbn.
    destruct (mv =? m PrevMovement), l; cbn; auto.
Qed.

Lemma other_pins_ignored_witness :
  reachable after_setup /\
  Z.testbit 4 DI_QUAD_A = Z.testbit 21 DI_QUAD_A /\
  Z.testbit 4 DI_QUAD_B = Z.testbit 21 DI_QUAD_B /\
  exists mp mq t,
    QuadChange (upd after_setup PIND 4) = Some (tt, mp, t) /\
    QuadChange (upd after_setup PIND 21) = Some (tt, mq, t) /\
    forall l, l = PIND \/ mp l = mq l.
Proof.
  assert (reachable after_setup) as R.
  { apply (reach_setup boot after_setup (events_of (setup boot)));
      [repeat split | reflexivity]. }
  split; [exact R|]. split; [reflexivity|]. split; [reflexivity|].
  exact (other_pins_ignored after_setup 4 21 R eq_refl eq_refl).
Defined.

(** ** Steady rotation, and a port that does not move *)

Lemma forward_code (pair : Z) :
  0 <= pair <= 3 ->
  nth (Z.to_nat (4 * forward_pair pair + pair)) QuadLookup 0 = 1 /\
  nth (Z.to_nat (4 * backward_pair pair + pair)) QuadLookup 0 = -1 /\
  nth (Z.to_nat (4 * pair + pair)) QuadLookup 0 = 0.
Proof.
  intros H.
  assert (pair = 0 \/ pair = 1 \/ pair = 2 \/ pair = 3)
    as [-> | [-> | [-> | ->]]] by lia;
    repeat split.
Qed.

Lemma decode_steps (f : Z -> Z) (d : Z) (pinds : list Z) :
  (forall pair, 0 <= pair <= 3 ->
     nth (Z.to_nat (4 * f pair + pair)) QuadLookup 0 = d) ->
  forall pair mv,
    0 <= pair <= 3 ->
    steps f pair pinds = true ->
    map (fun r => snd (fst r)) (decode pair mv pinds) =
      repeat d (length pinds) /\
    map snd (tl (decode pair mv pinds)) =
      repeat (d =? d) (length pinds - 1).
Proof.
  intros Hf. induction pinds as [|p rest IH]; intros pair mv Hp St.
  - split; reflexivity.
  - cbn [steps] in St. apply andb_prop in St as [E St].
    apply Z.eqb_eq in E. cbn [decode map fst snd length repeat tl].
    rewrite E, (Hf pair Hp).
    assert (0 <= sampled_pair p <= 3) as Hs by apply sampled_pair_range.
    destruct (IH (sampled_pair p) d Hs St) as [M P]. rewrite <- E.
    split; [rewrite M; reflexivity|].
    replace (S (length rest) - 1)%nat with (length rest) by lia.
    destruct rest as [|p' rest']; [reflexivity|].
    cbn [steps] in St. apply andb_prop in St as [E' St'].
    apply Z.eqb_eq in E'.
    cbn [decode map snd fst length repeat tl] in P |- *.
    rewrite E', (Hf _ Hs) in P |- *. f_equal.
    replace (S (length rest') - 1)%nat with (length rest') in P by lia.
    exact P.
Qed.

Lemma map_summary_movement (obs : list edge_obs) :
  map (fun r => snd (fst r)) (map summary obs) = map movement obs.
Proof. rewrite map_map. reflexivity. Qed.

Lemma map_summary_pulse_tl (obs : list edge_obs) :
  map snd (tl (map summary obs)) = map pulse (tl obs).
Proof. destruct obs; [reflexivity|]. cbn [map tl]. rewrite map_map. reflexivity. Qed.

(** While the phase inputs step the same way round from one edge to the
    next (A leading B: 00, 01, 11, 10 as the port has the pairs, or B
    leading A), every edge decodes to the same movement, +1 or -1, and
    every edge after the first fires the one-shot, whatever timer
    overflows come in between. *)
Theorem steady_rotation_fires_every_edge (m : mem) (irqs : list irq) :
  reachable m ->
  exists obs m',
    run irqs m = Some (obs, m') /\
    (steps forward_pair (m QuadStatePrevious) (edge_pinds irqs) = true ->
       map movement obs = repeat 1 (length (edge_pinds irqs)) /\
       map pulse (tl obs) = repeat true (length (edge_pinds irqs) - 1)) /\
    (steps backward_pair (m QuadStatePrevious) (edge_pinds irqs) = true ->
       map movement obs = repeat (-1) (length (edge_pinds irqs)) /\
       map pulse (tl obs) = repeat true (length (edge_pinds irqs) - 1)).
Proof.
  intros Hr. pose proof (reachable_ok m Hr) as Hm.
  destruct (run_decode irqs m Hm) as (obs & m' & R & D).
  exists obs, m'. split; [exact R|].
  rewrite <- map_summary_movement, <- map_summary_pulse_tl, D.
  split; intros S.
  - apply (decode_steps forward_pair 1); [|exact Hm|exact S].
    intros pair Hp. apply (forward_code pair Hp).
  - apply (decode_steps backward_pair (-1)); [|exact Hm|exact S].
    intros pair Hp. apply (forward_code pair Hp).
Qed.

Lemma steady_rotation_fires_every_edge_witness :
  reachable after_setup /\
  exists obs m',
    run [INT_edge 4; TIMER1_OVF; INT_edge 12; INT_edge 8; INT_edge 0]
        after_setup = Some (obs, m') /\
    (steps forward_pair (after_setup QuadStatePrevious)
       (edge_pinds [INT_edge 4; TIMER1_OVF; INT_edge 12; INT_edge 8;
                    INT_edge 0]) = true ->
       map movement obs =
         repeat 1 (length (edge_pinds [INT_edge 4; TIMER1_OVF; INT_edge 12;
                                       INT_edge 8; INT_edge 0])) /\
       map pulse (tl obs) =
         repeat true (length (edge_pinds [INT_edge 4; TIMER1_OVF;
                                          INT_edge 12; INT_edge 8;
                                          INT_edge 0]) - 1)) /\
    (steps backward_pair (after_setup QuadStatePrevious)
       (edge_pinds [INT_edge 4; TIMER1_OVF; INT_edge 12; INT_edge 8;
                    INT_edge 0]) = true ->
       map movement obs =
         repeat (-1) (length (edge_pinds [INT_edge 4; TIMER1_OVF;
                                          INT_edge 12; INT_edge 8;
                                          INT_edge 0])) /\
       map pulse (tl obs) =
         repeat true (length (edge_pinds [INT_edge 4; TIMER1_OVF;
                                          INT_edge 12; INT_edge 8;
                                          INT_edge 0]) - 1)).
Proof.
  assert (reachable after_setup) as R.
  { apply (reach_setup boot after_setup (events_of (setup boot)));
      [repeat split | reflexivity]. }
  split; [exact R|].
  exact (steady_rotation_fires_every_edge after_setup
           [INT_edge 4; TIMER1_OVF; INT_edge 12; INT_edge 8; INT_edge 0] R).
Defined.

(** An edge interrupt that finds the phase pins as the previous one left
    them decodes to no movement; a second such edge in a row decodes to no
    movement again and, 0 being equal to 0, fires the one-shot although
    nothing moved. *)
Theorem still_port_fires (m : mem) (p1 p2 p3 : Z) :
  reachable m ->
  sampled_pair p2 = sampled_pair p1 ->
  sampled_pair p3 = sampled_pair p1 ->
  exists o1 o2 o3 m',
    run [INT_edge p1; INT_edge p2; INT_edge p3] m = Some ([o1; o2; o3], m') /\
    code o2 = 5 * sampled_pair p1 /\ movement o2 = 0 /\
    code o3 = 5 * sampled_pair p1 /\ movement o3 = 0 /\
    pulse o2 = (movement o1 =? 0) /\
    pulse o3 = true.
Proof.
  intros Hr E2 E3. pose proof (reachable_ok m Hr) as Hm.
  destruct (run_decode [INT_edge p1; INT_edge p2; INT_edge p3] m Hm)
    as (obs & m' & R & D).
  cbn [edge_pinds flat_map app decode] in D. rewrite E2, E3 in D.
  destruct (forward_code (sampled_pair p1) (sampled_pair_range p1))
    as (_ & _ & Z0).
  rewrite Z0 in D.
  replace (4 * sampled_pair p1 + sampled_pair p1)
    with (5 * sampled_pair p1) in D by lia.
  remember (5 * sampled_pair p1) as c5 eqn:Ec.
  remember (4 * sampled_pair p1 + m QuadStatePrevious) as c1 eqn:E1.
  remember (nth (Z.to_nat c1) QuadLookup 0) as v1 eqn:Ev.
  destruct obs as [|o1 [|o2 [|o3 [|o4 rest]]]]; try discriminate.
  cbn [map] in D. unfold summary in D.
  injection D as C1 M1 P1 C2 M2 P2 C3 M3 P3.
  exists o1, o2, o3, m'. split; [exact R|].
  rewrite C2, M2, C3, M3, P2, P3, M1, Z.eqb_sym.
  repeat split.
Qed.

Lemma still_port_fires_witness :
  reachable after_setup /\
  sampled_pair 5 = sampled_pair 4 /\
  sampled_pair 20 = sampled_pair 4 /\
  exists o1 o2 o3 m',
    run [INT_edge 4; INT_edge 5; INT_edge 20] after_setup
      = Some ([o1; o2; o3], m') /\
    code o2 = 5 * sampled_pair 4 /\ movement o2 = 0 /\
    code o3 = 5 * sampled_pair 4 /\ movement o3 = 0 /\
    pulse o2 = (movement o1 =? 0) /\
    pulse o3 = true.
Proof.
  assert (reachable after_setup) as R.
  { apply (reach_setup boot after_setup (events_of (setup boot)));
      [repeat split | reflexivity]. }
  split; [exact R|]. split; [reflexivity|]. split; [reflexivity|].
  exact (still_port_fires after_setup 4 5 20 R eq_refl eq_refl).
Defined.

(** ** The output pin over a run *)

Lemma flipped_twice (a b : bool) (p : Z) :
  flipped a (flipped b p) = flipped (xorb a b) p.
Proof.
  unfold flipped. destruct a, b; cbn [xorb]; try reflexivity.
  rewrite Z.lxor_assoc, Z.lxor_nilpotent, Z.lxor_0_r. reflexivity.
Qed.

Lemma qc_mem_PORTD (m : mem) (mv : Z) :
  qc_mem m mv PORTD = flipped (pulse_in (qc_events m mv)) (m PORTD).
Proof.
  rewrite qc_events_pulse, qc_mem_regs by reflexivity. unfold flipped.
  destruct (mv =? m PrevMovement); reflexivity.
Qed.

Lemma hw_change_other (l l' : loc) (v : Z) (m : mem) :
  touches l' (HW_change l v) = false -> hw_change l v m l' = m l'.
Proof.
  unfold touches, hw_change, upd.
  destruct (is_static l); [reflexivity|].
  destruct (loc_eq_dec l' l) as [-> | N]; [discriminate|].
  destruct (loc_eq_dec l l') as [-> | _]; [contradiction|reflexivity].
Qed.

Lemma odd_succ_xor (n : nat) : Nat.odd (S n) = xorb true (Nat.odd n).
Proof. rewrite Nat.odd_succ, <- Nat.negb_odd. destruct (Nat.odd n); reflexivity. Qed.

(** The level of the output pin after a run is its level before, inverted
    once for every edge that fired and once for every timer overflow, and
    nothing else: the handlers leave every other bit of the port's output
    latch, the pull-ups of the phase inputs among them, as it was. *)
Theorem pin_is_xor_of_toggles (irqs : list irq) :
  forall m,
    reachable m ->
    untouched PORTD irqs = true ->
    exists obs m',
      run irqs m = Some (obs, m') /\
      m' PORTD =
        flipped (Nat.odd (length (filter pulse obs) +
                          length (filter is_ovf irqs)))
                (m PORTD).
Proof.
  intros m Hr. pose proof (reachable_ok m Hr) as Hm. clear Hr.
  revert m Hm.
  induction irqs as [|q rest IH]; intros m Hm U.
  - exists [], m. split; reflexivity.
  - cbn [untouched forallb] in U. apply andb_prop in U as [Uq U].
    destruct q as [pind | | l v]; cbn [run filter is_ovf].
    + pose proof (upd_PIND_ok m pind Hm) as Hu.
      destruct (QuadChange_total _ Hu) as (mv & T & E). rewrite E.
      destruct (IH (qc_mem (upd m PIND pind) mv)) as (obs & m' & R & P);
        [eapply QuadChange_ok; [exact Hu | exact E] | exact U |].
      rewrite R. do 2 eexists. split; [reflexivity|].
      rewrite P, qc_mem_PORTD. cbn [filter]. unfold pulse at 2.
      cbn [events].
      change (upd m PIND pind PORTD) with (m PORTD).
      destruct (pulse_in (qc_events (upd m PIND pind) mv)).
      * rewrite flipped_twice. cbn [length Nat.add].
        rewrite odd_succ_xor, xorb_comm. reflexivity.
      * reflexivity.
    + rewrite TIMER1_OVF_run.
      destruct (IH (ovf_mem m) (ovf_ok m Hm) U) as (obs & m' & R & P).
      exists obs, m'. split; [exact R|]. rewrite P.
      change (ovf_mem m PORTD) with (flipped true (m PORTD)).
      rewrite flipped_twice. cbn [length].
      rewrite Nat.add_succ_r, odd_succ_xor, xorb_comm. reflexivity.
    + destruct (IH (hw_change l v m) (hw_change_ok l v m Hm) U)
        as (obs & m' & R & P).
      exists obs, m'. split; [exact R|]. rewrite P.
      rewrite hw_change_other; [reflexivity|].
      apply negb_true_iff in Uq. exact Uq.
Qed.

Lemma pin_is_xor_of_toggles_witness :
  reachable after_setup /\
  untouched PORTD [INT_edge 0; INT_edge 0; TIMER1_OVF; HW_change TCNT1 3]
    = true /\
  exists obs m',
    run [INT_edge 0; INT_edge 0; TIMER1_OVF; HW_change TCNT1 3] after_setup
      = Some (obs, m') /\
    m' PORTD =
      flipped (Nat.odd (length (filter pulse obs) +
                        length (filter is_ovf
                                  [INT_edge 0; INT_edge 0; TIMER1_OVF;
                                   HW_change TCNT1 3])))
              (after_setup PORTD).
Proof.
  assert (reachable after_setup) as R.
  { apply (reach_setup boot after_setup (events_of (setup boot)));
      [repeat split | reflexivity]. }
  split; [exact R|]. split; [reflexivity|].
  exact (pin_is_xor_of_toggles
           [INT_edge 0; INT_edge 0; TIMER1_OVF; HW_change TCNT1 3]
           after_setup R eq_refl).
Defined.

(** ** What [setup] configures, and what the handlers leave of it *)

Lemma cast_U8_low_bits (v n : Z) :
  0 <= n < 8 -> Z.testbit (cast U8 v) n = Z.testbit v n.
Proof.
  intros H. unfold cast. change 256 with (2 ^ 8).
  apply Z.mod_pow2_bits_low. lia.
Qed.

Lemma bit_of_one (n : Z) : 0 < n -> Z.testbit 1 n = false.
Proof.
  intros H. apply Z.bits_above_log2; [lia|]. change (Z.log2 1) with 0. lia.
Qed.

Lemma set_bit0_keeps (v n : Z) :
  0 < n < 8 -> Z.testbit (cast U8 (Z.lor v (_BV 0))) n = Z.testbit v n.
Proof.
  intros H. rewrite cast_U8_low_bits, Z.lor_spec by lia.
  change (_BV 0) with 1. rewrite bit_of_one by lia. apply orb_false_r.
Qed.

Lemma clear_bit0_keeps (v n : Z) :
  0 < n < 8 ->
  Z.testbit (cast U8 (Z.land v (Z.lnot (_BV 0)))) n = Z.testbit v n.
Proof.
  intros H. rewrite cast_U8_low_bits, Z.land_spec, Z.lnot_spec by lia.
  change (_BV 0) with 1. rewrite bit_of_one by lia. apply andb_true_r.
Qed.



Lemma qc_mem_config (m : mem) (mv : Z) :
  qc_mem m mv TCCR1A = m TCCR1A /\
  qc_mem m mv TCCR1B = m TCCR1B /\
  qc_mem m mv TIMSK0 = m TIMSK0.
Proof.
  rewrite !qc_mem_regs by reflexivity. unfold one_shot_mem.
  destruct (mv =? m PrevMovement); repeat split.
Qed.

(** The timer configuration outlives every handler run: after [setup]
    and any sequence of edges and overflows, timer 1 still counts the CPU
    clock undivided in normal mode and the timer-0 overflow interrupt is
    still disabled, provided the hardware does not rewrite those registers
    itself. *)
Theorem timer_setup_persists (irqs : list irq) :
  forall m,
    reachable m ->
    m TCCR1A = 0 -> m TCCR1B = _BV CS10 ->
    Z.testbit (m TIMSK0) TOIE0 = false ->
    untouched TCCR1A irqs = true ->
    untouched TCCR1B irqs = true ->
    untouched TIMSK0 irqs = true ->
    exists obs m',
      run irqs m = Some (obs, m') /\
      m' TCCR1A = 0 /\ m' TCCR1B = _BV CS10 /\
      Z.testbit (m' TIMSK0) TOIE0 = false.
Proof.
  intros m Hr. pose proof (reachable_ok m Hr) as Hm. clear Hr.
  revert m Hm.
  induction irqs as [|q rest IH]; intros m Hm A B K UA UB UK.
  - exists [], m. repeat split; assumption.
  - cbn [untouched forallb] in UA, UB, UK.
    apply andb_prop in UA as [UAq UA]. apply andb_prop in UB as [UBq UB].
    apply andb_prop in UK as [UKq UK].
    destruct q as [pind | | l v]; cbn [run].
    + pose proof (upd_PIND_ok m pind Hm) as Hu.
      destruct (QuadChange_total _ Hu) as (mv & T & E). rewrite E.
      destruct (qc_mem_config (upd m PIND pind) mv) as (CA & CB & CK).
      destruct (IH (qc_mem (upd m PIND pind) mv))
        as (obs & m' & R & A' & B' & K');
        try assumption;
        [eapply QuadChange_ok; [exact Hu | exact E]
        | rewrite CA; exact A | rewrite CB; exact B | rewrite CK; exact K |].
      rewrite R. do 2 eexists. split; [reflexivity|]. auto.
    + rewrite TIMER1_OVF_run.
      destruct (IH (ovf_mem m) (ovf_ok m Hm) A B K UA UB UK)
        as (obs & m' & R & H).
      exists obs, m'. split; [exact R | exact H].
    + apply negb_true_iff in UAq, UBq, UKq.
      destruct (IH (hw_change l v m) (hw_change_ok l v m Hm))
        as (obs & m' & R & H); try assumption;
        try (rewrite hw_change_other by assumption; assumption).
      exists obs, m'. split; [exact R | exact H].
Qed.

Lemma timer_setup_persists_witness :
  reachable after_setup /\
  after_setup TCCR1A = 0 /\ after_setup TCCR1B = _BV CS10 /\
  Z.testbit (after_setup TIMSK0) TOIE0 = false /\
  untouched TCCR1A [INT_edge 0; TIMER1_OVF; HW_change TCNT1 5] = true /\
  untouched TCCR1B [INT_edge 0; TIMER1_OVF; HW_change TCNT1 5] = true /\
  untouched TIMSK0 [INT_edge 0; TIMER1_OVF; HW_change TCNT1 5] = true /\
  exists obs m',
    run [INT_edge 0; TIMER1_OVF; HW_change TCNT1 5] after_setup
      = Some (obs, m') /\
    m' TCCR1A = 0 /\ m' TCCR1B = _BV CS10 /\
    Z.testbit (m' TIMSK0) TOIE0 = false.
Proof.
  assert (reachable after_setup) as R.
  { apply (reach_setup boot after_setup (events_of (setup boot)));
      [repeat split | reflexivity]. }
  split; [exact R|]. repeat (split; [reflexivity|]).
  exact (timer_setup_persists [INT_edge 0; TIMER1_OVF; HW_change TCNT1 5]
           after_setup R eq_refl eq_refl eq_refl eq_refl eq_refl eq_refl).
Defined.

(** The handlers change one bit of the timer-1 interrupt mask and no
    other: a run of [QuadChange] or of the overflow handler leaves bits 1
    to 7 of [TIMSK1], the enables of the timer's other interrupts, as they
    were. *)
Theorem handlers_keep_other_enables (m : mem) (pind n : Z) :
  reachable m ->
  0 < n < 8 ->
  exists m1 t1 m2 t2,
    QuadChange (upd m PIND pind) = Some (tt, m1, t1) /\
    Z.testbit (m1 TIMSK1) n = Z.testbit (m TIMSK1) n /\
    TIMER1_OVF_vect m = Some (tt, m2, t2) /\
    Z.testbit (m2 TIMSK1) n = Z.testbit (m TIMSK1) n.
Proof.
  intros Hr Hn. pose proof (reachable_ok m Hr) as Hm.
  destruct (QuadChange_total _ (upd_PIND_ok m pind Hm)) as (mv & T & E).
  exists (qc_mem (upd m PIND pind) mv), (qc_events (upd m PIND pind) mv),
    (ovf_mem m), (ovf_events m).
  split; [exact E|]. split; [|split; [apply TIMER1_OVF_run|]].
  - rewrite qc_mem_regs by reflexivity.
    destruct (mv =? upd m PIND pind PrevMovement); [|reflexivity].
    unfold one_shot_mem. cbn. apply set_bit0_keeps, Hn.
  - unfold ovf_mem. cbn. apply clear_bit0_keeps, Hn.
Qed.

Lemma handlers_keep_other_enables_witness :
  reachable after_setup /\
  0 < 5 < 8 /\
  exists m1 t1 m2 t2,
    QuadChange (upd after_setup PIND 0) = Some (tt, m1, t1) /\
    Z.testbit (m1 TIMSK1) 5 = Z.testbit (after_setup TIMSK1) 5 /\
    TIMER1_OVF_vect after_setup = Some (tt, m2, t2) /\
    Z.testbit (m2 TIMSK1) 5 = Z.testbit (after_setup TIMSK1) 5.
Proof.
  assert (reachable after_setup) as R.
  { apply (reach_setup boot after_setup (events_of (setup boot)));
      [repeat split | reflexivity]. }
  assert (0 < 5 < 8) as H by lia.
  split; [exact R|]. split; [exact H|].
  exact (handlers_keep_other_enables after_setup 0 5 R H).
Defined.

(** ** The plain sketch's pulse *)

(** In the plain sketch an edge followed by the timer overflow is one
    whole pulse: both handlers return, the output pin is back at the level
    it had, the counter was loaded with [PULSE_LEN_TIMER_VAL], and the
    overflow interrupt is disabled again.  Two edges with no overflow
    between them also put the pin back where it was, with the interrupt
    left enabled: the second edge cuts the first pulse short. *)
Theorem plain_pulse_round_trip (m : mem) :
  (exists m' t,
     (Plain.QuadChange ;; Plain.TIMER1_OVF_vect) m = Some (tt, m', t) /\
     actions t = code_arm_order Plain.PULSE_LEN_TIMER_VAL ++
                 [TogglePin; DisableExpiryIrq] /\
     m' PORTD = m PORTD /\
     m' TCNT1 = Plain.PULSE_LEN_TIMER_VAL /\
     Z.testbit (m' TIMSK1) TOIE1 = false) /\
  (exists m' t,
     (Plain.QuadChange ;; Plain.QuadChange) m = Some (tt, m', t) /\
     actions t = code_arm_order Plain.PULSE_LEN_TIMER_VAL ++
                 code_arm_order Plain.PULSE_LEN_TIMER_VAL /\
     m' PORTD = m PORTD /\
     m' TCNT1 = Plain.PULSE_LEN_TIMER_VAL /\
     Z.testbit (m' TIMSK1) TOIE1 = true).
Proof.
  split; do 2 eexists; (split; [reflexivity|]); cbn; unfold TOIE1, TOV1;
    rewrite ?lor_BV_bit0, ?land_not_BV_bit0; cbn;
    rewrite ?lor_BV_bit0, ?land_not_BV_bit0;
    (split; [reflexivity|]);
    (split; [rewrite Z.lxor_assoc, Z.lxor_nilpotent, Z.lxor_0_r;
             reflexivity|]);
    (split; [reflexivity|]); reflexivity.
Qed.

(** ** The timer value for other pulse lengths *)

(** For a pulse length of 0 to 4095 microseconds the macros do not wrap:
    the value loaded is 65535 less sixteen counts per microsecond, it fits
    the 16-bit counter, and the counter overflows one tick after that many
    counts.  From 4096 microseconds on the product wraps in [unsigned int]
    and the timer value is that of the length less 4096. *)
Theorem timer_value_range (us : Z) :
  0 <= us <= 4095 ->
  PULSE_LEN_CPU_CLOCKS_of us = 16 * us /\
  PULSE_LEN_TIMER_VAL_of us = MAX_COUNT - 16 * us /\
  15 <= PULSE_LEN_TIMER_VAL_of us <= MAX_COUNT /\
  cast U16 (PULSE_LEN_TIMER_VAL_of us) = PULSE_LEN_TIMER_VAL_of us /\
  ticks_to_overflow (PULSE_LEN_TIMER_VAL_of us) = 16 * us + 1 /\
  PULSE_LEN_TIMER_VAL_of (us + 4096) = PULSE_LEN_TIMER_VAL_of us.
Proof.
  intros H.
  assert (PULSE_LEN_CPU_CLOCKS_of us = 16 * us) as C.
  { unfold PULSE_LEN_CPU_CLOCKS_of, uint, CPU_CLOCK_PER_US.
    rewrite Z.mod_small by lia. lia. }
  assert (PULSE_LEN_TIMER_VAL_of us = MAX_COUNT - 16 * us) as V.
  { unfold PULSE_LEN_TIMER_VAL_of. rewrite C. unfold uint, MAX_COUNT.
    apply Z.mod_small. lia. }
  assert (PULSE_LEN_TIMER_VAL_of (us + 4096) = PULSE_LEN_TIMER_VAL_of us)
    as W.
  { unfold PULSE_LEN_TIMER_VAL_of, PULSE_LEN_CPU_CLOCKS_of, uint,
      CPU_CLOCK_PER_US.
    replace ((us + 4096) * 16) with (us * 16 + 1 * 65536) by lia.
    rewrite Z.mod_add by lia. reflexivity. }
  split; [exact C|]. split; [exact V|]. rewrite W, V.
  unfold MAX_COUNT, ticks_to_overflow, cast.
  split; [lia|]. split; [apply Z.mod_small; lia|].
  split; [unfold MAX_COUNT; lia | reflexivity].
Qed.

Lemma timer_value_range_witness :
  0 <= 75 <= 4095 /\
  PULSE_LEN_CPU_CLOCKS_of 75 = 16 * 75 /\
  PULSE_LEN_TIMER_VAL_of 75 = MAX_COUNT - 16 * 75 /\
  15 <= PULSE_LEN_TIMER_VAL_of 75 <= MAX_COUNT /\
  cast U16 (PULSE_LEN_TIMER_VAL_of 75) = PULSE_LEN_TIMER_VAL_of 75 /\
  ticks_to_overflow (PULSE_LEN_TIMER_VAL_of 75) = 16 * 75 + 1 /\
  PULSE_LEN_TIMER_VAL_of (75 + 4096) = PULSE_LEN_TIMER_VAL_of 75.
Proof.
  split; [lia|]. apply (timer_value_range 75). lia.
Defined.

(** ** The table read backwards *)

(** Taking a transition back negates its movement: for any two pairs the
    table entry for going from one to the other is minus the entry for the
    way back, so a step and its reversal never decode to the same non-zero
    movement. *)
Theorem table_reversal_negates (a b : Z) :
  0 <= a <= 3 ->
  0 <= b <= 3 ->
  exists v,
    table (code_TransitionCode a b) = Some v /\
    table (code_TransitionCode b a) = Some (- v).
Proof.
  intros Ha Hb.
  assert (a = 0 \/ a = 1 \/ a = 2 \/ a = 3) as [-> | [-> | [-> | ->]]] by lia;
  assert (b = 0 \/ b = 1 \/ b = 2 \/ b = 3) as [-> | [-> | [-> | ->]]] by lia;
    eexists; split; reflexivity.
Qed.

Lemma table_reversal_negates_witness :
  0 <= 0 <= 3 /\ 0 <= 1 <= 3 /\
  exists v,
    table (code_TransitionCode 0 1) = Some v /\
    table (code_TransitionCode 1 0) = Some (- v).
Proof.
  assert (0 <= 0 <= 3) as Ha by lia. assert (0 <= 1 <= 3) as Hb by lia.
  split; [exact Ha|]. split; [exact Hb|].
  exact (table_reversal_negates 0 1 Ha Hb).
Defined.

(** ** The plain sketch's [setup] *)


